(** * ProjectCloudUIExtension: cloud-sync status handling of a project

    A shallow embedding of
    [modules/mod-cloud-audiocom/ui/ProjectCloudUIExtension.cpp]:
    the progress sink [SetUploadProgress], the closing gate [AllowClosing]
    and the status-event handler [OnCloudStatusChanged] with its recovery
    dispatch.  The object's members are a record that is passed explicitly;
    every call the code makes to a collaborator (dialogs, the progress
    dialog, the save helpers, the log) is recorded, in program order, with
    the answer the collaborator gave and with a snapshot of the object at
    the moment of the call. *)

From Stdlib Require Import ZArith Bool List String Lia Sorted.
From Stdlib Require Import Floats.SpecFloat.
From Stdlib Require Import Ascii DecimalString DecimalPos DecimalZ.
Import ListNotations.

Local Open Scope Z_scope.

(** ** C++ [double]: IEEE-754 binary64 *)

(** A [double] is a [spec_float] that satisfies [valid_binary 53 1024]. *)
Definition double : Type := spec_float.

Module Double.

Definition prec : Z := 53.
Definition emax : Z := 1024.

Definition valid (x : double) : bool := valid_binary prec emax x.

(** [x * y], rounded to nearest, ties to even. *)
Definition mul (x y : double) : double := SFmul prec emax x y.

(** [x <= y] *)
Definition leb (x y : double) : bool := SFleb x y.

(** Conversion of an [int] literal to [double] (exact below 2^53). *)
Definition of_int (n : Z) : double := binary_normalize prec emax n 0 false.

Definition zero : double := S754_zero false.
Definition one : double := Eval cbv in of_int 1.

(** Implicit conversion [double -> unsigned long long]: the value is
    truncated toward zero.  C++ leaves the conversion undefined when the
    truncated value does not fit (negative below -1, 2^64 and above,
    infinities and NaN); the model returns 0 for the non-finite and the
    negative inputs. *)
Definition to_ull (x : double) : Z :=
  match x with
  | S754_finite false m e => Z.shiftl (Zpos m) e
  | _ => 0
  end.

End Double.

(** ** Data carried by a status event *)

(** Modelled from the spec: the enumeration [ProjectSyncStatus] is declared
    in sync/CloudSyncDTO.h, which is not part of the sources at hand; the
    states are those of the specification's [SyncStatus]. *)
Inductive ProjectSyncStatus := Idle | Syncing | Succeeded | Failed.

(** Modelled from the spec: the enumeration [CloudSyncError::ErrorType] is
    declared outside the sources at hand; these are the kinds the
    specification lists, which are also the labels of the handler's
    [switch].  The [default:] label of the switch shares the arm of
    [Cancelled]. *)
Inductive ErrorKind :=
| Authorization
| ProjectLimitReached
| ProjectStorageLimitReached
| ProjectVersionConflict
| ProjectNotFound
| Network
| DataUploadFailed
| Server
| ClientFailure
| Cancelled.

Record CloudSyncError := {
  Type_ : ErrorKind;
  ErrorMessage : string
}.

Record CloudStatusChangedMessage := {
  Status : ProjectSyncStatus;
  Progress : double;
  Error : option CloudSyncError
}.

Definition ProjectSyncStatus_eqb (a b : ProjectSyncStatus) : bool :=
  match a, b with
  | Idle, Idle | Syncing, Syncing | Succeeded, Succeeded | Failed, Failed => true
  | _, _ => false
  end.

(** Modelled from the spec: [CloudStatusChangedMessage::IsSyncing] is
    defined with the message type, outside the sources at hand; a message
    is syncing when its state is [Syncing]. *)
Definition IsSyncing (message : CloudStatusChangedMessage) : bool :=
  ProjectSyncStatus_eqb (Status message) Syncing.

(** ** Collaborators *)

Inductive SaveMode := Normal | ForceSave | SaveNew.

(** Modelled from the spec: [BasicUI::ProgressResult] is declared in
    BasicUI.h; the code names [Cancelled] and [Stopped], the specification
    calls the remaining answer [Continue]. *)
Inductive ProgressResult := PR_Continue | PR_Cancelled | PR_Stopped.

Inductive ProgressDialogOption := ProgressShowCancel | ProgressShowStop.

(** Dialog results are [Identifier]s compared with [==]; the four the code
    names, and any other one. *)
Inductive Identifier :=
| ViewOnlineIdentifier
| VisitAudioComIdentifier
| UseLocalIdentifier
| SaveLocallyIdentifier
| OtherIdentifier (name : string).

Definition Identifier_eqb (a b : Identifier) : bool :=
  match a, b with
  | ViewOnlineIdentifier, ViewOnlineIdentifier
  | VisitAudioComIdentifier, VisitAudioComIdentifier
  | UseLocalIdentifier, UseLocalIdentifier
  | SaveLocallyIdentifier, SaveLocallyIdentifier => true
  | OtherIdentifier x, OtherIdentifier y => String.eqb x y
  | _, _ => false
  end.

(** A progress dialog owned through [std::unique_ptr]. *)
Definition Handle : Type := nat.

(** A call to a collaborator, with its arguments and its answer. *)
Inductive Call :=
| GetSavesCount (result : Z)
| MakeProgress (title message : string)
    (options : list ProgressDialogOption) (result : Handle)
| Poll (dialog : Handle) (numerator denominator : Z) (result : ProgressResult)
| DestroyProgress (dialog : Handle)
| Yield
| ShowSyncSuccessDialog (result : Identifier)
| UnlinkAccount
| SaveToCloud (mode : SaveMode)
| ShowProjectLimitDialog (result : Identifier)
| ShowWaitForActionDialog (message : string) (retry : bool)
| ResaveLocally (result : bool)
| ShowProjectVersionConflictDialog (result : Identifier)
| ReopenProject
| ShowNotCloudProjectDialog (result : Identifier)
| ShowConnectionIssuesDialog
| ShowErrorDialog (title message log : string)
| wxLogError (text : string).

(** What the collaborators answer during one invocation of the handler
    (each is asked at most once per invocation). *)
Record Answers := {
  savesCount : Z;
  pollResult : ProgressResult;
  syncSuccessChoice : Identifier;
  projectLimitChoice : Identifier;
  versionConflictChoice : Identifier;
  notCloudProjectChoice : Identifier;
  resaveLocallyResult : bool
}.

(** ** The object *)

Record ProjectCloudUIExtension := {
  mProgress : double;
  mProgressDialog : option Handle;
  mClosingCancelled : bool;
  mInSync : bool;
  mNeedsFirstSaveDialog : bool
}.

(** Modelled from the spec: the member initialisers are in
    ProjectCloudUIExtension.h, outside the sources at hand; a new object is
    not syncing, has no progress handle, no recorded cancellation and has
    not yet resolved whether an announcement is owed. *)
Definition initial : ProjectCloudUIExtension := {|
  mProgress := Double.zero;
  mProgressDialog := None;
  mClosingCancelled := false;
  mInSync := false;
  mNeedsFirstSaveDialog := false
|}.

(** A call as it is observed: the object at the moment of the call. *)
Definition Observation : Type := ProjectCloudUIExtension * Call.

(** ** A state-and-trace monad for member functions *)

Definition M (A : Type) : Type :=
  ProjectCloudUIExtension -> A * ProjectCloudUIExtension * list Observation.

Definition ret {A} (a : A) : M A := fun this => (a, this, []).

Definition bind {A B} (m : M A) (f : A -> M B) : M B :=
  fun this =>
    let '(a, this1, t1) := m this in
    let '(b, this2, t2) := f a this1 in
    (b, this2, t1 ++ t2).

Definition get {A} (field : ProjectCloudUIExtension -> A) : M A :=
  fun this => (field this, this, []).

Definition modify (f : ProjectCloudUIExtension -> ProjectCloudUIExtension)
  : M unit :=
  fun this => (tt, f this, []).

Definition call (c : Call) : M unit :=
  fun this => (tt, this, [(this, c)]).

Declare Scope member_scope.
Delimit Scope member_scope with member.
Notation "x <- m ;; k" := (bind m (fun x => k))
  (at level 61, m at next level, right associativity) : member_scope.
Notation "m ;; k" := (bind m (fun _ => k))
  (at level 61, right associativity) : member_scope.
Local Open Scope member_scope.

Definition result_of {A} (r : A * ProjectCloudUIExtension * list Observation)
  : A := fst (fst r).
Definition object_of {A} (r : A * ProjectCloudUIExtension * list Observation)
  : ProjectCloudUIExtension := snd (fst r).
Definition trace_of {A} (r : A * ProjectCloudUIExtension * list Observation)
  : list Observation := snd r.

Definition calls_of {A} (r : A * ProjectCloudUIExtension * list Observation)
  : list Call := map snd (trace_of r).

(** Member assignments. *)
Definition set_mProgress (v : double) : M unit :=
  modify (fun this => {|
    mProgress := v;
    mProgressDialog := mProgressDialog this;
    mClosingCancelled := mClosingCancelled this;
    mInSync := mInSync this;
    mNeedsFirstSaveDialog := mNeedsFirstSaveDialog this |}).

Definition set_mProgressDialog (v : option Handle) : M unit :=
  modify (fun this => {|
    mProgress := mProgress this;
    mProgressDialog := v;
    mClosingCancelled := mClosingCancelled this;
    mInSync := mInSync this;
    mNeedsFirstSaveDialog := mNeedsFirstSaveDialog this |}).

Definition set_mClosingCancelled (v : bool) : M unit :=
  modify (fun this => {|
    mProgress := mProgress this;
    mProgressDialog := mProgressDialog this;
    mClosingCancelled := v;
    mInSync := mInSync this;
    mNeedsFirstSaveDialog := mNeedsFirstSaveDialog this |}).

Definition set_mInSync (v : bool) : M unit :=
  modify (fun this => {|
    mProgress := mProgress this;
    mProgressDialog := mProgressDialog this;
    mClosingCancelled := mClosingCancelled this;
    mInSync := v;
    mNeedsFirstSaveDialog := mNeedsFirstSaveDialog this |}).

Definition set_mNeedsFirstSaveDialog (v : bool) : M unit :=
  modify (fun this => {|
    mProgress := mProgress this;
    mProgressDialog := mProgressDialog this;
    mClosingCancelled := mClosingCancelled this;
    mInSync := mInSync this;
    mNeedsFirstSaveDialog := v |}).

(** [mProgressDialog.reset()]: [std::unique_ptr::reset] first clears the
    member and then destroys the dialog it held, if there was one. *)
Definition reset_mProgressDialog : M unit :=
  dialog <- get mProgressDialog ;;
  match dialog with
  | None => ret tt
  | Some h => set_mProgressDialog None ;; call (DestroyProgress h)
  end.

(** ** SetUploadProgress *)

(** Modelled from the spec: [BasicUI::ProgressDialog::Poll] is declared in
    BasicUI.h, outside the sources at hand; the specification has the
    progress capability take integer tick counts, a value and a maximum.
    The numerator the code hands over, [progress * 10000], is a [double]
    product, so it is converted to an integer at the call, which C++ does
    by truncation toward zero. *)
Definition scaled_tick (progress : double) : Z :=
  Double.to_ull (Double.mul progress (Double.of_int 10000)).

Definition SetUploadProgress (progress : double) (env : Answers) : M bool :=
  set_mProgress progress ;;
  dialog <- get mProgressDialog ;;
  match dialog with
  | None => ret true
  | Some h =>
      let result := pollResult env in
      call (Poll h (scaled_tick progress) 10000 result) ;;
      match result with
      | PR_Cancelled =>
          set_mClosingCancelled true ;;
          reset_mProgressDialog ;;
          ret true
      | PR_Stopped => ret false
      | PR_Continue => ret true
      end
  end.

(** ** OnCloudStatusChanged *)

Definition log_text (error : CloudSyncError) : string :=
  ("Cloud sync has failed: " ++ ErrorMessage error)%string.

(** The [switch (error.Type)] of the handler. *)
Definition recover (error : CloudSyncError) (env : Answers) : M unit :=
  match Type_ error with
  | Authorization =>
      call UnlinkAccount ;;
      call (SaveToCloud Normal)
  | ProjectLimitReached
  | ProjectStorageLimitReached =>
      let result := projectLimitChoice env in
      call (ShowProjectLimitDialog result) ;;
      if Identifier_eqb result VisitAudioComIdentifier then
        call (ShowWaitForActionDialog
                "Please, complete your action on audio.com" true) ;;
        call (SaveToCloud Normal)
      else
        let saved := resaveLocallyResult env in
        call (ResaveLocally saved) ;;
        if negb saved then call (SaveToCloud Normal) else ret tt
  | ProjectVersionConflict =>
      let result := versionConflictChoice env in
      call (ShowProjectVersionConflictDialog result) ;;
      if Identifier_eqb result UseLocalIdentifier then
        call (SaveToCloud ForceSave)
      else
        call ReopenProject
  | ProjectNotFound =>
      let result := notCloudProjectChoice env in
      call (ShowNotCloudProjectDialog result) ;;
      if Identifier_eqb result SaveLocallyIdentifier then
        let saved := resaveLocallyResult env in
        call (ResaveLocally saved) ;;
        if negb saved then call (SaveToCloud SaveNew) else ret tt
      else
        call (SaveToCloud SaveNew)
  | Network =>
      call ShowConnectionIssuesDialog
  | DataUploadFailed
  | Server
  | ClientFailure =>
      call (ShowErrorDialog "Save to cloud"
              "Failed to save the project to the cloud" (ErrorMessage error))
  | Cancelled => ret tt
  end.

(** Lines 103-130: the flags, the progress dialog and the first-save
    dialog. *)
Definition update_status (message : CloudStatusChangedMessage) (env : Answers)
  : M unit :=
  set_mInSync (IsSyncing message) ;;
  needs <- get mNeedsFirstSaveDialog ;;
  (if negb needs then
     let count := savesCount env in
     call (GetSavesCount count) ;;
     set_mNeedsFirstSaveDialog (count =? 0)
   else ret tt) ;;
  inSync <- get mInSync ;;
  if negb inSync then
    reset_mProgressDialog ;;
    needs <- get mNeedsFirstSaveDialog ;;
    if needs then
      set_mNeedsFirstSaveDialog false ;;
      call (ShowSyncSuccessDialog (syncSuccessChoice env))
    else ret tt
  else
    _ <- SetUploadProgress (Progress message) env ;;
    ret tt.

Definition OnCloudStatusChanged
  (message : CloudStatusChangedMessage) (env : Answers) : M unit :=
  update_status message env ;;
  match Status message, Error message with
  | Failed, Some error =>
      recover error env ;;
      call (wxLogError (log_text error))
  | _, _ => ret tt
  end.

(** ** AllowClosing *)

(** What [BasicUI::Yield] lets run: status events delivered to the handler
    and progress reports. *)
Inductive Pending :=
| StatusChanged (message : CloudStatusChangedMessage) (env : Answers)
| UploadProgress (progress : double) (env : Answers).

Definition dispatch (p : Pending) : M unit :=
  match p with
  | StatusChanged message env => OnCloudStatusChanged message env
  | UploadProgress progress env =>
      _ <- SetUploadProgress progress env ;; ret tt
  end.

Fixpoint drain (pending : list Pending) : M unit :=
  match pending with
  | [] => ret tt
  | p :: rest => dispatch p ;; drain rest
  end.

(** One turn of the wait loop as the environment plays it: the handle
    [BasicUI::MakeProgress] returns if it is asked, and the work that is
    pending when the loop yields. *)
Record Turn := {
  fresh : Handle;
  pending : list Pending
}.

Definition loop_body (turn : Turn) : M unit :=
  dialog <- get mProgressDialog ;;
  (match dialog with
   | None =>
       call (MakeProgress "Save to audio.com"
               "Project is syncing with audio.com. Do you want to stop the sync process?"
               [ProgressShowCancel; ProgressShowStop] (fresh turn)) ;;
       set_mProgressDialog (Some (fresh turn))
   | Some _ => ret tt
   end) ;;
  call Yield ;;
  drain (pending turn).

Definition waiting (this : ProjectCloudUIExtension) : bool :=
  mInSync this && negb (mClosingCancelled this).

(** The loop runs for as long as the environment's script of turns lasts;
    [None] is a loop that is still waiting when the script ends. *)
Fixpoint AllowClosing (script : list Turn) : M (option bool) :=
  fun this =>
    if waiting this then
      match script with
      | [] => (None, this, [])
      | turn :: rest => (loop_body turn ;; AllowClosing rest) this
      end
    else
      (Some (negb (mInSync this) || negb (mClosingCancelled this)), this, []).

(** ** Sequences of operations *)

Definition Event : Type := CloudStatusChangedMessage * Answers.

Fixpoint deliver (events : list Event) : M unit :=
  match events with
  | [] => ret tt
  | (message, env) :: rest => OnCloudStatusChanged message env ;; deliver rest
  end.

Inductive Operation :=
| DoSetUploadProgress (progress : double) (env : Answers)
| DoOnCloudStatusChanged (message : CloudStatusChangedMessage) (env : Answers)
| DoAllowClosing (script : list Turn).

Definition perform (op : Operation) : M unit :=
  match op with
  | DoSetUploadProgress progress env =>
      _ <- SetUploadProgress progress env ;; ret tt
  | DoOnCloudStatusChanged message env => OnCloudStatusChanged message env
  | DoAllowClosing script => _ <- AllowClosing script ;; ret tt
  end.

Fixpoint perform_all (ops : list Operation) : M unit :=
  match ops with
  | [] => ret tt
  | op :: rest => perform op ;; perform_all rest
  end.

(** ** Reading traces *)

Definition retrigger_mode (c : Call) : option SaveMode :=
  match c with
  | SaveToCloud mode => Some mode
  | _ => None
  end.

(** The modes of the [SaveToCloud] calls of a trace, in order. *)
Fixpoint retriggers (calls : list Call) : list SaveMode :=
  match calls with
  | [] => []
  | c :: rest =>
      match retrigger_mode c with
      | Some mode => mode :: retriggers rest
      | None => retriggers rest
      end
  end.

(** The texts of the [wxLogError] calls of a trace, in order. *)
Fixpoint log_records (calls : list Call) : list string :=
  match calls with
  | [] => []
  | wxLogError text :: rest => text :: log_records rest
  | _ :: rest => log_records rest
  end.

(** Calls that belong to a recovery flow (the arms of the switch). *)
Definition is_recovery_call (c : Call) : bool :=
  match c with
  | UnlinkAccount | SaveToCloud _ | ShowProjectLimitDialog _
  | ShowWaitForActionDialog _ _ | ResaveLocally _
  | ShowProjectVersionConflictDialog _ | ReopenProject
  | ShowNotCloudProjectDialog _ | ShowConnectionIssuesDialog
  | ShowErrorDialog _ _ _ => true
  | _ => false
  end.

Definition is_announcement (c : Call) : bool :=
  match c with
  | ShowSyncSuccessDialog _ => true
  | _ => false
  end.

Definition is_MakeProgress (c : Call) : bool :=
  match c with
  | MakeProgress _ _ _ _ => true
  | _ => false
  end.

(** How often the first-save dialog is shown in a trace. *)
Definition announcements (calls : list Call) : nat :=
  List.length (filter is_announcement calls).

(** ** The recovery table of the specification (section 4.4)

    Written from the table of the specification, one row per error kind, as
    the list of collaborator calls of the row; [OnCloudStatusChanged] is
    compared with it below. *)
Definition recovery_table (error : CloudSyncError) (env : Answers)
  : list Call :=
  match Type_ error with
  | Authorization => [UnlinkAccount; SaveToCloud Normal]
  | ProjectLimitReached | ProjectStorageLimitReached =>
      ShowProjectLimitDialog (projectLimitChoice env) ::
      match projectLimitChoice env with
      | VisitAudioComIdentifier =>
          [ShowWaitForActionDialog
             "Please, complete your action on audio.com" true;
           SaveToCloud Normal]
      | _ =>
          ResaveLocally (resaveLocallyResult env) ::
          (if resaveLocallyResult env then [] else [SaveToCloud Normal])
      end
  | ProjectVersionConflict =>
      ShowProjectVersionConflictDialog (versionConflictChoice env) ::
      match versionConflictChoice env with
      | UseLocalIdentifier => [SaveToCloud ForceSave]
      | _ => [ReopenProject]
      end
  | ProjectNotFound =>
      ShowNotCloudProjectDialog (notCloudProjectChoice env) ::
      match notCloudProjectChoice env with
      | SaveLocallyIdentifier =>
          ResaveLocally (resaveLocallyResult env) ::
          (if resaveLocallyResult env then [] else [SaveToCloud SaveNew])
      | _ => [SaveToCloud SaveNew]
      end
  | Network => [ShowConnectionIssuesDialog]
  | DataUploadFailed | Server | ClientFailure =>
      [ShowErrorDialog "Save to cloud"
         "Failed to save the project to the cloud" (ErrorMessage error)]
  | Cancelled => []
  end.

(** The re-trigger modes of the table, row by row. *)
Definition table_retriggers (error : CloudSyncError) (env : Answers)
  : list SaveMode :=
  match Type_ error with
  | Authorization => [Normal]
  | ProjectLimitReached | ProjectStorageLimitReached =>
      match projectLimitChoice env with
      | VisitAudioComIdentifier => [Normal]
      | _ => if resaveLocallyResult env then [] else [Normal]
      end
  | ProjectVersionConflict =>
      match versionConflictChoice env with
      | UseLocalIdentifier => [ForceSave]
      | _ => []
      end
  | ProjectNotFound =>
      match notCloudProjectChoice env with
      | SaveLocallyIdentifier =>
          if resaveLocallyResult env then [] else [SaveNew]
      | _ => [SaveNew]
      end
  | Network | DataUploadFailed | Server | ClientFailure | Cancelled => []
  end.

(** ** Sample inputs *)

Definition no_answers : Answers := {|
  savesCount := 1;
  pollResult := PR_Continue;
  syncSuccessChoice := OtherIdentifier "close";
  projectLimitChoice := OtherIdentifier "save-locally";
  versionConflictChoice := OtherIdentifier "use-remote";
  notCloudProjectChoice := OtherIdentifier "save-remotely";
  resaveLocallyResult := false
|}.

Definition failure (kind : ErrorKind) (text : string)
  : CloudStatusChangedMessage := {|
  Status := Failed;
  Progress := Double.zero;
  Error := Some {| Type_ := kind; ErrorMessage := text |}
|}.

Definition syncing (progress : double) : CloudStatusChangedMessage := {|
  Status := Syncing;
  Progress := progress;
  Error := None
|}.

Definition succeeded : CloudStatusChangedMessage := {|
  Status := Succeeded;
  Progress := Double.one;
  Error := None
|}.

Definition in_sync (dialog : option Handle) : ProjectCloudUIExtension := {|
  mProgress := Double.zero;
  mProgressDialog := dialog;
  mClosingCancelled := false;
  mInSync := true;
  mNeedsFirstSaveDialog := false
|}.

(** ** The diagnostic log record *)

(** The claim that the log record carries the error kind: the kind can be
    read off the record of any failure. *)
Definition log_record_carries_kind : Prop :=
  exists kind_of : string -> ErrorKind,
    forall this message error env text,
      Status message = Failed ->
      Error message = Some error ->
      In text (log_records (calls_of (OnCloudStatusChanged message env this))) ->
      kind_of text = Type_ error.

(** ** Re-triggering from inside the handler *)

(** The claim that the handler never calls [SaveToCloud] itself. *)
Definition retrigger_never_inline : Prop :=
  forall this message env,
    retriggers (calls_of (OnCloudStatusChanged message env this)) = [].

(** ** The progress sink *)

Definition is_cancelled_poll (c : Call) : bool :=
  match c with
  | Poll _ _ _ PR_Cancelled => true
  | _ => false
  end.

(** A computation records a cancellation only by way of a poll that was
    answered [Cancelled]. *)
Definition cancels_only_by_poll {A} (m : M A) : Prop :=
  forall this,
    mClosingCancelled (object_of (m this)) = true ->
    mClosingCancelled this = true \/
    existsb is_cancelled_poll (calls_of (m this)) = true.

(** ** Where a progress dialog comes from *)

Definition cancel_answers : Answers := {|
  savesCount := 1;
  pollResult := PR_Cancelled;
  syncSuccessChoice := OtherIdentifier "close";
  projectLimitChoice := OtherIdentifier "save-locally";
  versionConflictChoice := OtherIdentifier "use-remote";
  notCloudProjectChoice := OtherIdentifier "save-remotely";
  resaveLocallyResult := false
|}.

(** A computation makes no [MakeProgress] call and leaves the dialog as it
    was or without one. *)
Definition keeps_or_drops_dialog {A} (m : M A) : Prop :=
  forall this,
    filter is_MakeProgress (calls_of (m this)) = [] /\
    (mProgressDialog (object_of (m this)) = None \/
     mProgressDialog (object_of (m this)) = mProgressDialog this).

(** ** The cancellation flag is never lowered *)

Definition keeps_cancelled {A} (m : M A) : Prop :=
  forall this,
    mClosingCancelled this = true ->
    mClosingCancelled (object_of (m this)) = true.

(** ** The first-save dialog *)

(** Reading a trace from left to right: an announcement is owed once the
    save counter has been queried and answered 0, and is no longer owed
    once it has been made. *)
Fixpoint owed_after (owed : bool) (calls : list Call) : bool :=
  match calls with
  | [] => owed
  | GetSavesCount count :: rest => owed_after (owed || (count =? 0)) rest
  | ShowSyncSuccessDialog _ :: rest => owed_after false rest
  | _ :: rest => owed_after owed rest
  end.

(** Every announcement of the trace is made while one is owed. *)
Fixpoint announced_only_when_owed (owed : bool) (calls : list Call) : bool :=
  match calls with
  | [] => true
  | GetSavesCount count :: rest =>
      announced_only_when_owed (owed || (count =? 0)) rest
  | ShowSyncSuccessDialog _ :: rest =>
      owed && announced_only_when_owed false rest
  | _ :: rest => announced_only_when_owed owed rest
  end.

(** Every announcement of the trace is observed with the flag lowered. *)
Definition announced_with_flag_lowered (trace : list Observation) : Prop :=
  Forall (fun obs => is_announcement (snd obs) = true ->
                     mNeedsFirstSaveDialog (fst obs) = false) trace.

Definition counter_nonzero (event : Event) : Prop :=
  savesCount (snd event) <> 0.

(** Calls that neither query the counter nor announce. *)
Definition is_neutral (c : Call) : bool :=
  match c with
  | GetSavesCount _ | ShowSyncSuccessDialog _ => false
  | _ => true
  end.

(** The answers to the queries of the save counter in a trace, in order. *)
Fixpoint counter_queries (calls : list Call) : list Z :=
  match calls with
  | [] => []
  | GetSavesCount count :: rest => count :: counter_queries rest
  | _ :: rest => counter_queries rest
  end.

(** What a sequence of events is due, from the flag before it.  An event
    that finds the flag lowered queries the counter and raises the flag
    when the answer is 0; an event that is not syncing announces when the
    flag is raised, and lowers it. *)
Fixpoint announcements_due (flag : bool) (events : list Event) : nat :=
  match events with
  | [] => 0%nat
  | (message, env) :: rest =>
      let owed := flag || (savesCount env =? 0) in
      ((if negb (IsSyncing message) && owed then 1 else 0) +
       announcements_due (IsSyncing message && owed) rest)%nat
  end.

Fixpoint queries_due (flag : bool) (events : list Event) : list Z :=
  match events with
  | [] => []
  | (message, env) :: rest =>
      let owed := flag || (savesCount env =? 0) in
      (if flag then [] else [savesCount env]) ++
      queries_due (IsSyncing message && owed) rest
  end.

Definition half : double :=
  Eval cbv in SFldexp Double.prec Double.emax Double.one (-1).

Definition zero_count : Answers := {|
  savesCount := 0;
  pollResult := PR_Continue;
  syncSuccessChoice := OtherIdentifier "close";
  projectLimitChoice := OtherIdentifier "save-locally";
  versionConflictChoice := OtherIdentifier "use-remote";
  notCloudProjectChoice := OtherIdentifier "save-remotely";
  resaveLocallyResult := false
|}.

(** The claim that the announcement fires at most once per instance. *)
Definition announced_at_most_once : Prop :=
  forall events : list Event,
    (announcements (calls_of (deliver events initial)) <= 1)%nat.

(** ** Rounding to nearest, ties to even, on a grid of step [g] *)

Definition rne (n g : Z) : Z :=
  let q := n / g in
  let r := n mod g in
  if (g <? 2 * r) || ((g =? 2 * r) && Z.odd q) then q + 1 else q.

(** The value of a non-negative finite number in units of [2 ^ b]. *)
Definition scaled (b : Z) (x : spec_float) : Z :=
  match x with
  | S754_finite false m e => Zpos m * 2 ^ (e - b)
  | _ => 0
  end.

(** Zero or positive and finite, with exponent at least [b]. *)
Definition nonneg_finite (b : Z) (x : spec_float) : Prop :=
  match x with
  | S754_zero false => True
  | S754_finite false _ e => b <= e
  | _ => False
  end.

(** Rounding of a positive integer counted in units of [2 ^ b] to binary64:
    to 53 significant bits, and to no less than the subnormal step. *)
Definition round64 (b n : Z) : Z :=
  let s := Z.max (Zdigits2 n - 53) (-1074 - b) in
  rne n (2 ^ s) * 2 ^ s.

(** The exact product by 10000, in units of [2 ^ -1113]. *)
Definition exact_scaled (x : double) : Z :=
  match x with
  | S754_finite false m e => Zpos m * 5497558138880000 * 2 ^ (e + 1074)
  | _ => 0
  end.

(** A progress value: a [double] in the interval [0, 1]. *)
Definition in_unit_interval (p : double) : Prop :=
  Double.valid p = true /\
  Double.leb Double.zero p = true /\
  Double.leb p Double.one = true.

(** Written from the specification: [round(x)], the integer nearest to a
    non-negative [x], halves upward. *)
Definition round_to_nearest (x : double) : Z :=
  match x with
  | S754_finite false m e =>
      if 0 <=? e then Zpos m * 2 ^ e
      else (2 * Zpos m + 2 ^ (- e)) / 2 ^ (1 - e)
  | _ => 0
  end.

(** Written from the specification: the tick [round(p * 10000)]. *)
Definition rounded_tick (progress : double) : Z :=
  round_to_nearest (Double.mul progress (Double.of_int 10000)).

(** The progress value 3/64 = 0.046875. *)
Definition three_64ths : double := S754_finite false 6755399441055744 (-57).

(** The claim that the tick is the rounded product. *)
Definition tick_is_rounded : Prop :=
  forall p, in_unit_interval p -> scaled_tick p = rounded_tick p.


(** ** Ownership of the progress dialog *)

(** The number of progress dialogs the object owns. *)
Definition dialogs (this : ProjectCloudUIExtension) : nat :=
  match mProgressDialog this with
  | Some _ => 1
  | None => 0
  end.

Definition is_DestroyProgress (c : Call) : bool :=
  match c with
  | DestroyProgress _ => true
  | _ => false
  end.

Definition created (calls : list Call) : nat :=
  List.length (filter is_MakeProgress calls).

Definition destroyed (calls : list Call) : nat :=
  List.length (filter is_DestroyProgress calls).

(** A trace read as a protocol on the progress dialog, from the dialog
    that is owned before it: a dialog is made only when none is owned, a
    dialog is polled only while it is the one owned, and the dialog that is
    destroyed is the one owned, which is then owned no more.  The result is
    the dialog owned after the calls, or [None] when a call breaks the
    protocol. *)
Fixpoint dialog_protocol (owned : option Handle) (calls : list Call)
  : option (option Handle) :=
  match calls with
  | [] => Some owned
  | MakeProgress _ _ _ h :: rest =>
      match owned with
      | None => dialog_protocol (Some h) rest
      | Some _ => None
      end
  | Poll h _ _ _ :: rest =>
      match owned with
      | Some h' => if Nat.eqb h h' then dialog_protocol owned rest else None
      | None => None
      end
  | DestroyProgress h :: rest =>
      match owned with
      | Some h' => if Nat.eqb h h' then dialog_protocol None rest else None
      | None => None
      end
  | _ :: rest => dialog_protocol owned rest
  end.

(** The member at the moment of a call on a progress dialog: empty when a
    dialog is made, the dialog itself when it is polled, and already empty
    when a dialog is destroyed ([reset] clears the member first). *)
Definition respects_ownership (obs : Observation) : Prop :=
  match snd obs with
  | MakeProgress _ _ _ _ => mProgressDialog (fst obs) = None
  | Poll h _ _ _ => mProgressDialog (fst obs) = Some h
  | DestroyProgress _ => mProgressDialog (fst obs) = None
  | _ => True
  end.

(** What a computation does to the dialogs: it destroys what it no longer
    owns, its calls follow the protocol, and the member is as the protocol
    has it at every call. *)
Definition manages_dialogs {A} (m : M A) : Prop :=
  forall this,
    (dialogs this + created (calls_of (m this)) =
     dialogs (object_of (m this)) + destroyed (calls_of (m this)))%nat /\
    dialog_protocol (mProgressDialog this) (calls_of (m this)) =
      Some (mProgressDialog (object_of (m this))) /\
    Forall respects_ownership (trace_of (m this)).

(** The object does not own a dialog once a cancellation is recorded. *)
Definition cancelled_without_dialog (this : ProjectCloudUIExtension) : Prop :=
  mClosingCancelled this = true -> mProgressDialog this = None.

Definition keeps_cancelled_without_dialog {A} (m : M A) : Prop :=
  forall this,
    cancelled_without_dialog this ->
    cancelled_without_dialog (object_of (m this)).

(** The answers of [env], with another answer of the progress dialog. *)
Definition with_pollResult (r : ProgressResult) (env : Answers) : Answers := {|
  savesCount := savesCount env;
  pollResult := r;
  syncSuccessChoice := syncSuccessChoice env;
  projectLimitChoice := projectLimitChoice env;
  versionConflictChoice := versionConflictChoice env;
  notCloudProjectChoice := notCloudProjectChoice env;
  resaveLocallyResult := resaveLocallyResult env
|}.


(** * TimeFormat *)

(** More of C++ [double]. *)
Module DoubleOps.

(** [x < y] *)
Definition ltb (x y : double) : bool := SFltb x y.

(** [x + y], [x - y], [x / y], [- x] *)
Definition add (x y : double) : double := SFadd Double.prec Double.emax x y.
Definition sub (x y : double) : double := SFsub Double.prec Double.emax x y.
Definition div (x y : double) : double := SFdiv Double.prec Double.emax x y.
Definition opp (x : double) : double := SFopp x.

(** The cast [(int) x]: the value is truncated toward zero.  C++ leaves
    the cast undefined when the truncated value does not fit in [int], and
    for infinities and NaN; the model returns the truncated value of every
    finite number, and 0 otherwise, and [fits_int] below tells when the
    cast is defined. *)
Definition to_int (x : double) : Z :=
  match x with
  | S754_finite false m e => Z.shiftl (Zpos m) e
  | S754_finite true m e => - Z.shiftl (Zpos m) e
  | _ => 0
  end.

(** The cast [(int) x] is defined: [x] is zero, or finite with a truncated
    value that a 32-bit [int] holds. *)
Definition fits_int (x : double) : bool :=
  match x with
  | S754_zero _ => true
  | S754_finite _ _ _ => (- 2 ^ 31 <=? to_int x) && (to_int x <? 2 ^ 31)
  | _ => false
  end.

End DoubleOps.

Module TimeFormat.

(** The tick sizes of a ruler, which [SetTickSizes] receives by
    reference. *)
Record TickSizes := {
  mMajor : double;
  mMinor : double;
  mMinorMinor : double;
  mDigits : Z
}.

(** A [double] literal with a whole value, as [1.0] or [3600.0]. *)
Definition lit (n : Z) : double := Double.of_int n.

(** The assignments [mMinor = minor; mMajor = major;]. *)
Definition set_ticks (minor major : double) (t : TickSizes) : TickSizes := {|
  mMajor := major;
  mMinor := minor;
  mMinorMinor := mMinorMinor t;
  mDigits := mDigits t
|}.

Section WithRealFormat.

(** [RealFormat::LinearInstance().SetTickSizes], which is defined in
    RealFormat.cpp, outside the sources at hand. *)
Variable RealFormat_SetTickSizes : double -> TickSizes -> TickSizes.

Definition SetTickSizes (units : double) (t : TickSizes) : TickSizes :=
  if DoubleOps.ltb half units then
    if DoubleOps.ltb units (lit 1) then set_ticks (lit 1) (lit 5) t
    else if DoubleOps.ltb units (lit 5) then set_ticks (lit 5) (lit 15) t
    else if DoubleOps.ltb units (lit 10) then set_ticks (lit 10) (lit 30) t
    else if DoubleOps.ltb units (lit 15) then set_ticks (lit 15) (lit 60) t
    else if DoubleOps.ltb units (lit 30) then set_ticks (lit 30) (lit 60) t
    else if DoubleOps.ltb units (lit 60) then set_ticks (lit 60) (lit 300) t
    else if DoubleOps.ltb units (lit 300) then
      set_ticks (lit 300) (lit 900) t
    else if DoubleOps.ltb units (lit 600) then
      set_ticks (lit 600) (lit 1800) t
    else if DoubleOps.ltb units (lit 900) then
      set_ticks (lit 900) (lit 3600) t
    else if DoubleOps.ltb units (lit 1800) then
      set_ticks (lit 1800) (lit 3600) t
    else if DoubleOps.ltb units (lit 3600) then
      set_ticks (lit 3600) (Double.mul (Double.of_int 6) (lit 3600)) t
    else if DoubleOps.ltb units (Double.mul (Double.of_int 6) (lit 3600)) then
      set_ticks (Double.mul (Double.of_int 6) (lit 3600))
                (Double.mul (Double.of_int 24) (lit 3600)) t
    else if DoubleOps.ltb units (Double.mul (Double.of_int 24) (lit 3600))
    then
      set_ticks (Double.mul (Double.of_int 24) (lit 3600))
                (Double.mul (Double.of_int (7 * 24)) (lit 3600)) t
    else
      set_ticks (Double.mul (Double.mul (lit 24) (lit 7)) (lit 3600))
                (Double.mul (Double.mul (lit 24) (lit 7)) (lit 3600)) t
  else RealFormat_SetTickSizes units t.

End WithRealFormat.

(** The declaration of [RulerFormat::TickType] is in RulerFormat.h, outside
    the sources at hand; the code names [t_major] only. *)
Inductive TickType := t_major | t_other.

(** [Printf] with [%d]: the decimal digits of an [int], with a minus sign
    for a negative one. *)
Definition printf_d (n : Z) : string :=
  NilZero.string_of_int (Z.to_int n).

(** [Printf] with [%02d]: at least two characters, padded with a zero. *)
Definition printf_02d (n : Z) : string :=
  if (0 <=? n) && (n <? 10) then String "0"%char (printf_d n) else printf_d n.

(** The text for [mMinor >= 3600.0]: [%d:00:00]. *)
Definition hours_text (hrs : Z) : string :=
  (printf_d hrs ++ ":00:00")%string.

(** The text for [mMinor >= 60.0]: [%d:%02d:00] or [%d:00]. *)
Definition minutes_text (minutes : Z) : string :=
  if 60 <=? minutes then
    (printf_d (Z.quot minutes 60) ++ ":"
     ++ printf_02d (Z.rem minutes 60) ++ ":00")%string
  else (printf_d minutes ++ ":00")%string.

(** The text for [mMinor >= 1.0]: [%d:%02d:%02d], [%d:%02d] or [%d]. *)
Definition seconds_text (secs : Z) : string :=
  if 3600 <=? secs then
    (printf_d (Z.quot secs 3600) ++ ":"
     ++ printf_02d (Z.rem (Z.quot secs 60) 60) ++ ":"
     ++ printf_02d (Z.rem secs 60))%string
  else if 60 <=? secs then
    (printf_d (Z.quot secs 60) ++ ":" ++ printf_02d (Z.rem secs 60))%string
  else printf_d secs.

(** The literal [1.000000000000001]: the nearest [double] is
    [1 + 5 * 2^-52]. *)
Definition one_and_a_bit : double := S754_finite false 4503599627370501 (-52).

Section WithLibrary.

(** [wxString::Printf] with a format made at run time and a [double]
    argument, and [pow] of the C library. *)
Variable Printf_double : string -> double -> string.
Variable pow : double -> double -> double.

(** The text for a minor tick below one second (the [#else] part; the
    [#if 0] part is not compiled). *)
Definition fraction_text (d : double) (mDigits : Z) : string :=
  let dd := Double.mul d one_and_a_bit in
  let secs := DoubleOps.to_int dd in
  let t1 :=
    if 3600 <=? secs then
      (printf_d (Z.quot secs 3600) ++ ":"
       ++ printf_02d (Z.rem (Z.quot secs 60) 60) ++ ":")%string
    else if 60 <=? secs then (printf_d (Z.quot secs 60) ++ ":")%string
    else EmptyString in
  let format :=
    if 60 <=? secs then
      ("%0" ++ printf_d (mDigits + 3) ++ "." ++ printf_d mDigits ++ "lf")%string
    else
      ("%" ++ printf_d (mDigits + 3) ++ "." ++ printf_d mDigits ++ "lf")%string
  in
  let dd :=
    DoubleOps.add (DoubleOps.sub dd (Double.of_int secs))
                  (Double.of_int (Z.rem secs 60)) in
  let multiplier := pow (Double.of_int 10) (Double.of_int mDigits) in
  let dd :=
    DoubleOps.div
      (Double.of_int (DoubleOps.to_int (Double.mul dd multiplier)))
      multiplier in
  let t2 := Printf_double format dd in
  (t1 ++ t2)%string.

(** [ALWAYS_HH_MM_SS] is not defined in the file, so the block under
    [#if ALWAYS_HH_MM_SS] is not compiled. *)
Definition SetLabelString
  (s : string) (d mMinor : double) (mDigits : Z) (tickType : TickType)
  : string :=
  let d :=
    if DoubleOps.ltb d Double.zero
       && DoubleOps.ltb Double.zero (DoubleOps.add d mMinor)
    then Double.zero else d in
  match tickType with
  | t_major =>
      let s := if DoubleOps.ltb d Double.zero then "-"%string else s in
      let d := if DoubleOps.ltb d Double.zero then DoubleOps.opp d else d in
      if Double.leb (lit 3600) mMinor then
        let hrs :=
          DoubleOps.to_int (DoubleOps.add (DoubleOps.div d (lit 3600)) half) in
        (s ++ hours_text hrs)%string
      else if Double.leb (lit 60) mMinor then
        let minutes :=
          DoubleOps.to_int (DoubleOps.add (DoubleOps.div d (lit 60)) half) in
        (s ++ minutes_text minutes)%string
      else if Double.leb (lit 1) mMinor then
        let secs := DoubleOps.to_int (DoubleOps.add d half) in
        (s ++ seconds_text secs)%string
      else
        (s ++ fraction_text d mDigits)%string
  | t_other => s
  end.

End WithLibrary.

(** Reading a clock text back: fields of decimal digits separated by
    colons, each field worth sixty of the next. *)
Fixpoint fields (s : string) : list string :=
  match s with
  | EmptyString => [EmptyString]
  | String c rest =>
      if Ascii.eqb c ":"%char then EmptyString :: fields rest
      else
        match fields rest with
        | f :: fs => String c f :: fs
        | [] => [String c EmptyString]
        end
  end.

Definition field_value (f : string) : option Z :=
  match f with
  | EmptyString => None
  | _ => option_map Z.of_uint (NilEmpty.uint_of_string f)
  end.

Fixpoint clock_value (fs : list string) (acc : Z) : option Z :=
  match fs with
  | [] => Some acc
  | f :: rest =>
      match field_value f with
      | Some v => clock_value rest (acc * 60 + v)
      | None => None
      end
  end.

Definition parse_clock (s : string) : option Z := clock_value (fields s) 0.

End TimeFormat.


(** ** Reading a label *)

(** The value after lines 110-111: a negative [d] less than one minor tick
    away from zero is taken as zero. *)
Definition replaced (d mMinor : double) : double :=
  if DoubleOps.ltb d Double.zero
     && DoubleOps.ltb Double.zero (DoubleOps.add d mMinor)
  then Double.zero else d.

(** The magnitude that a major tick shows, and the text before it. *)
Definition magnitude (d mMinor : double) : double :=
  if DoubleOps.ltb (replaced d mMinor) Double.zero
  then DoubleOps.opp (replaced d mMinor) else replaced d mMinor.

Definition sign_text (s : string) (d mMinor : double) : string :=
  if DoubleOps.ltb (replaced d mMinor) Double.zero then "-"%string else s.

(** The time a major tick shows, in seconds, for [mMinor >= 1.0]. *)
Definition shown_seconds (d mMinor : double) : Z :=
  if Double.leb (TimeFormat.lit 3600) mMinor then
    3600 * DoubleOps.to_int
             (DoubleOps.add
                (DoubleOps.div (magnitude d mMinor) (TimeFormat.lit 3600))
                half)
  else if Double.leb (TimeFormat.lit 60) mMinor then
    60 * DoubleOps.to_int
           (DoubleOps.add
              (DoubleOps.div (magnitude d mMinor) (TimeFormat.lit 60)) half)
  else DoubleOps.to_int (DoubleOps.add (magnitude d mMinor) half).

(** The operand of the [(int)] cast of lines 135, 141 and 150. *)
Definition cast_operand (d mMinor : double) : double :=
  if Double.leb (TimeFormat.lit 3600) mMinor then
    DoubleOps.add
      (DoubleOps.div (magnitude d mMinor) (TimeFormat.lit 3600)) half
  else if Double.leb (TimeFormat.lit 60) mMinor then
    DoubleOps.add (DoubleOps.div (magnitude d mMinor) (TimeFormat.lit 60)) half
  else DoubleOps.add (magnitude d mMinor) half.

(** The seconds that one unit of the first printed number is worth. *)
Definition label_unit (mMinor : double) : Z :=
  if Double.leb (TimeFormat.lit 3600) mMinor then 3600
  else if Double.leb (TimeFormat.lit 60) mMinor then 60
  else 1.

(** Not negative: zero, NaN, or with the sign bit clear. *)
Definition nonneg (x : double) : bool :=
  match x with
  | S754_zero _ | S754_nan => true
  | S754_infinity s | S754_finite s _ _ => negb s
  end.

(** A field of a clock text: the digits of a number. *)
Definition is_field (f : string) (v : Z) : Prop :=
  exists u, u <> Decimal.Nil /\
            f = NilEmpty.string_of_uint u /\ Z.of_uint u = v.

(** The fields after the first have two digits. *)
Definition two_digit_fields (text : string) : Prop :=
  Forall (fun f => String.length f = 2%nat) (tl (TimeFormat.fields text)).

(** A [Printf] for the examples. *)
Definition quote_format (format : string) (x : double) : string := format.

Definition first_argument (x y : double) : double := x.

(** 3725.5 seconds. *)
Definition sample_time : double := S754_finite false 8192461138558976 (-41).

(** -90 seconds. *)
Definition minus_ninety : double := S754_finite true 6333186975989760 (-46).

(** -0.25 seconds. *)
Definition minus_quarter : double := S754_finite true 4503599627370496 (-54).

(** * Proofs *)

(** ** Laws of the monad used in the proofs *)

Lemma calls_of_bind {A B} (m : M A) (f : A -> M B) this :
  calls_of (bind m f this) =
  calls_of (m this) ++ calls_of (f (result_of (m this)) (object_of (m this))).
Proof.
  unfold calls_of, trace_of, result_of, object_of, bind.
  destruct (m this) as [[a this1] t1]; simpl.
  destruct (f a this1) as [[b this2] t2]; simpl.
  apply map_app.
Qed.

Lemma trace_of_bind {A B} (m : M A) (f : A -> M B) this :
  trace_of (bind m f this) =
  trace_of (m this) ++ trace_of (f (result_of (m this)) (object_of (m this))).
Proof.
  unfold trace_of, result_of, object_of, bind.
  destruct (m this) as [[a this1] t1]; simpl.
  destruct (f a this1) as [[b this2] t2]; reflexivity.
Qed.

Lemma object_of_bind {A B} (m : M A) (f : A -> M B) this :
  object_of (bind m f this) =
  object_of (f (result_of (m this)) (object_of (m this))).
Proof.
  unfold result_of, object_of, bind.
  destruct (m this) as [[a this1] t1]; simpl.
  destruct (f a this1) as [[b this2] t2]; reflexivity.
Qed.

Lemma result_of_bind {A B} (m : M A) (f : A -> M B) this :
  result_of (bind m f this) =
  result_of (f (result_of (m this)) (object_of (m this))).
Proof.
  unfold result_of, object_of, bind.
  destruct (m this) as [[a this1] t1]; simpl.
  destruct (f a this1) as [[b this2] t2]; reflexivity.
Qed.

Lemma retriggers_app (xs ys : list Call) :
  retriggers (xs ++ ys) = retriggers xs ++ retriggers ys.
Proof.
  induction xs as [|c xs IH]; simpl; [reflexivity|].
  destruct (retrigger_mode c); simpl; now rewrite IH.
Qed.

Lemma log_records_app (xs ys : list Call) :
  log_records (xs ++ ys) = log_records xs ++ log_records ys.
Proof.
  induction xs as [|c xs IH]; simpl; [reflexivity|].
  destruct c; simpl; now rewrite IH.
Qed.

Lemma announcements_app (xs ys : list Call) :
  announcements (xs ++ ys) = (announcements xs + announcements ys)%nat.
Proof.
  unfold announcements. now rewrite filter_app, length_app.
Qed.

(** ** The recovery dispatch against the table *)

Lemma recover_calls (error : CloudSyncError) (env : Answers) this :
  calls_of (recover error env this) = recovery_table error env.
Proof.
  unfold recover, recovery_table.
  destruct (Type_ error); try reflexivity.
  - destruct (projectLimitChoice env); try reflexivity;
      destruct (resaveLocallyResult env); reflexivity.
  - destruct (projectLimitChoice env); try reflexivity;
      destruct (resaveLocallyResult env); reflexivity.
  - destruct (versionConflictChoice env); reflexivity.
  - destruct (notCloudProjectChoice env); try reflexivity;
      destruct (resaveLocallyResult env); reflexivity.
Qed.

Lemma recover_object (error : CloudSyncError) (env : Answers) this :
  object_of (recover error env this) = this.
Proof.
  unfold recover.
  destruct (Type_ error); try reflexivity.
  - destruct (projectLimitChoice env); try reflexivity;
      destruct (resaveLocallyResult env); reflexivity.
  - destruct (projectLimitChoice env); try reflexivity;
      destruct (resaveLocallyResult env); reflexivity.
  - destruct (versionConflictChoice env); reflexivity.
  - destruct (notCloudProjectChoice env); try reflexivity;
      destruct (resaveLocallyResult env); reflexivity.
Qed.

Lemma table_retriggers_ok (error : CloudSyncError) (env : Answers) :
  retriggers (recovery_table error env) = table_retriggers error env.
Proof.
  unfold recovery_table, table_retriggers.
  destruct (Type_ error); try reflexivity.
  - destruct (projectLimitChoice env); try reflexivity;
      destruct (resaveLocallyResult env); reflexivity.
  - destruct (projectLimitChoice env); try reflexivity;
      destruct (resaveLocallyResult env); reflexivity.
  - destruct (versionConflictChoice env); reflexivity.
  - destruct (notCloudProjectChoice env); try reflexivity;
      destruct (resaveLocallyResult env); reflexivity.
Qed.

Lemma recovery_table_recovery (error : CloudSyncError) (env : Answers) :
  forallb is_recovery_call (recovery_table error env) = true.
Proof.
  unfold recovery_table.
  destruct (Type_ error); try reflexivity.
  - destruct (projectLimitChoice env); try reflexivity;
      destruct (resaveLocallyResult env); reflexivity.
  - destruct (projectLimitChoice env); try reflexivity;
      destruct (resaveLocallyResult env); reflexivity.
  - destruct (versionConflictChoice env); reflexivity.
  - destruct (notCloudProjectChoice env); try reflexivity;
      destruct (resaveLocallyResult env); reflexivity.
Qed.

(** What [SetUploadProgress] does, case by case. *)
Lemma SetUploadProgress_calls progress env this :
  calls_of (SetUploadProgress progress env this) =
  match mProgressDialog this with
  | None => []
  | Some h =>
      Poll h (scaled_tick progress) 10000 (pollResult env) ::
      match pollResult env with
      | PR_Cancelled => [DestroyProgress h]
      | _ => []
      end
  end.
Proof.
  unfold SetUploadProgress, calls_of, trace_of.
  destruct this as [p d c i n]; destruct d as [h|]; simpl; [|reflexivity].
  destruct (pollResult env); reflexivity.
Qed.

(** The status part of the handler makes no recovery call, re-triggers
    nothing and logs nothing. *)
Lemma update_status_no_recovery message env this :
  filter is_recovery_call (calls_of (update_status message env this)) = [].
Proof.
  unfold update_status, SetUploadProgress, calls_of, trace_of.
  destruct this as [p d c i n].
  destruct n, (IsSyncing message), d as [h|], (savesCount env =? 0),
    (pollResult env); reflexivity.
Qed.

Lemma update_status_no_log message env this :
  log_records (calls_of (update_status message env this)) = [].
Proof.
  unfold update_status, SetUploadProgress, calls_of, trace_of.
  destruct this as [p d c i n].
  destruct n, (IsSyncing message), d as [h|], (savesCount env =? 0),
    (pollResult env); reflexivity.
Qed.

Lemma update_status_no_retrigger message env this :
  retriggers (calls_of (update_status message env this)) = [].
Proof.
  unfold update_status, SetUploadProgress, calls_of, trace_of.
  destruct this as [p d c i n].
  destruct n, (IsSyncing message), d as [h|], (savesCount env =? 0),
    (pollResult env); reflexivity.
Qed.

(** The handler on a failure that carries an error. *)
Lemma OnCloudStatusChanged_failed message error env this :
  Status message = Failed -> Error message = Some error ->
  calls_of (OnCloudStatusChanged message env this) =
  calls_of (update_status message env this) ++
  recovery_table error env ++ [wxLogError (log_text error)].
Proof.
  intros Hs He. unfold OnCloudStatusChanged.
  rewrite calls_of_bind, Hs, He, calls_of_bind, recover_calls.
  reflexivity.
Qed.

(** The handler on every other event. *)
Lemma OnCloudStatusChanged_other message env this :
  Status message <> Failed \/ Error message = None ->
  calls_of (OnCloudStatusChanged message env this) =
  calls_of (update_status message env this).
Proof.
  intros H. unfold OnCloudStatusChanged.
  rewrite calls_of_bind.
  destruct (Status message), (Error message); simpl;
    try apply app_nil_r; destruct H; congruence.
Qed.

Lemma filter_all {A} (f : A -> bool) (xs : list A) :
  forallb f xs = true -> filter f xs = xs.
Proof.
  induction xs as [|x xs IH]; simpl; [reflexivity|].
  destruct (f x); simpl; [intros H; now rewrite IH | discriminate].
Qed.

(** ** Recovery flows *)

(** C1: on every Failed event that carries an error, the recovery calls of
    the handler are exactly the row of the recovery table selected by the
    error's kind, and the modes of its [SaveToCloud] calls are those of the
    table: Authorization gives Normal after unlinking, the two limit kinds
    give Normal on the visit path and on the failed local resave,
    ProjectVersionConflict gives ForceSave for "use local" and otherwise
    reopens without re-trigger, ProjectNotFound gives SaveNew directly or
    after a failed local resave, the remaining kinds re-trigger nothing and
    Cancelled runs no recovery call at all. *)
Theorem recovery_flow_selected_by_kind :
  forall this message error env,
    Status message = Failed ->
    Error message = Some error ->
    let calls := calls_of (OnCloudStatusChanged message env this) in
    filter is_recovery_call calls = recovery_table error env /\
    retriggers calls = table_retriggers error env /\
    (Type_ error = Cancelled -> filter is_recovery_call calls = []).
Proof.
  intros this message error env Hs He calls. subst calls.
  rewrite (OnCloudStatusChanged_failed _ _ _ _ Hs He).
  repeat split.
  - rewrite !filter_app, update_status_no_recovery.
    rewrite (filter_all _ _ (recovery_table_recovery error env)).
    simpl. apply app_nil_r.
  - rewrite !retriggers_app, update_status_no_retrigger, table_retriggers_ok.
    simpl. apply app_nil_r.
  - intros Hk.
    rewrite !filter_app, update_status_no_recovery.
    unfold recovery_table. rewrite Hk. reflexivity.
Qed.

Lemma recovery_flow_selected_by_kind_witness :
  let calls :=
    calls_of (OnCloudStatusChanged
                (failure ProjectNotFound "404")
                {| savesCount := 0;
                   pollResult := PR_Continue;
                   syncSuccessChoice := ViewOnlineIdentifier;
                   projectLimitChoice := VisitAudioComIdentifier;
                   versionConflictChoice := UseLocalIdentifier;
                   notCloudProjectChoice := SaveLocallyIdentifier;
                   resaveLocallyResult := false |}
                initial) in
  filter is_recovery_call calls =
    [ShowNotCloudProjectDialog SaveLocallyIdentifier; ResaveLocally false;
     SaveToCloud SaveNew] /\
  retriggers calls = [SaveNew] /\
  (ProjectNotFound = Cancelled -> filter is_recovery_call calls = []).
Proof.
  apply (recovery_flow_selected_by_kind initial
           (failure ProjectNotFound "404")
           {| Type_ := ProjectNotFound; ErrorMessage := "404" |});
    reflexivity.
Defined.

(** ** The log record of a failure *)

(** C5, as stated, fails: a Network failure and a Server failure with the
    same message leave the same log record, so the record does not contain
    the kind. *)
Lemma log_record_omits_kind : ~ log_record_carries_kind.
Proof.
  intros [kind_of H].
  assert (H1 := H initial (failure Network "timeout")
                  {| Type_ := Network; ErrorMessage := "timeout" |}
                  no_answers "Cloud sync has failed: timeout"%string
                  eq_refl eq_refl (or_introl eq_refl)).
  assert (H2 := H initial (failure Server "timeout")
                  {| Type_ := Server; ErrorMessage := "timeout" |}
                  no_answers "Cloud sync has failed: timeout"%string
                  eq_refl eq_refl (or_introl eq_refl)).
  simpl in H1, H2. congruence.
Qed.

(** C5, amended: on every Failed event that carries an error, whichever
    branch runs, exactly one log record is emitted; it is the handler's
    last call, after the calls of the branch; its text is the fixed prefix
    followed by the error message, and it does not depend on the error
    kind. *)
Theorem one_log_record_after_recovery :
  forall this message error env,
    Status message = Failed ->
    Error message = Some error ->
    let calls := calls_of (OnCloudStatusChanged message env this) in
    log_records calls = [log_text error] /\
    calls =
      (calls_of (update_status message env this) ++ recovery_table error env)
      ++ [wxLogError (log_text error)] /\
    log_text error = ("Cloud sync has failed: " ++ ErrorMessage error)%string /\
    (forall other, ErrorMessage other = ErrorMessage error ->
                   log_text other = log_text error).
Proof.
  intros this message error env Hs He calls. subst calls.
  rewrite (OnCloudStatusChanged_failed _ _ _ _ Hs He).
  repeat split.
  - rewrite !log_records_app, update_status_no_log.
    assert (Hn : log_records (recovery_table error env) = []).
    { unfold recovery_table.
      destruct (Type_ error); try reflexivity.
      - destruct (projectLimitChoice env); try reflexivity;
          destruct (resaveLocallyResult env); reflexivity.
      - destruct (projectLimitChoice env); try reflexivity;
          destruct (resaveLocallyResult env); reflexivity.
      - destruct (versionConflictChoice env); reflexivity.
      - destruct (notCloudProjectChoice env); try reflexivity;
          destruct (resaveLocallyResult env); reflexivity. }
    rewrite Hn. reflexivity.
  - now rewrite app_assoc.
  - intros other Ho. unfold log_text. now rewrite Ho.
Qed.

Lemma one_log_record_after_recovery_witness :
  let calls :=
    calls_of (OnCloudStatusChanged (failure Cancelled "stopped by user")
                no_answers initial) in
  log_records calls = ["Cloud sync has failed: stopped by user"%string] /\
  calls = [GetSavesCount 1;
           wxLogError "Cloud sync has failed: stopped by user"].
Proof.
  destruct (one_log_record_after_recovery initial
              (failure Cancelled "stopped by user")
              {| Type_ := Cancelled; ErrorMessage := "stopped by user" |}
              no_answers eq_refl eq_refl) as [H1 [H2 _]].
  split; [exact H1 | exact H2].
Defined.

(** ** The re-trigger is an inline call *)

(** C8, as stated, fails: on an Authorization failure the handler calls
    [SaveToCloud] itself, and is still executing afterwards: its log call
    follows. *)
Lemma retrigger_is_inline :
  calls_of (OnCloudStatusChanged (failure Authorization "401")
              no_answers initial) =
    [GetSavesCount 1; UnlinkAccount; SaveToCloud Normal;
     wxLogError "Cloud sync has failed: 401"] /\
  ~ retrigger_never_inline.
Proof.
  split; [reflexivity|].
  intros H.
  specialize (H initial (failure Authorization "401") no_answers).
  discriminate H.
Qed.

(** A row of the table re-triggers at most once, and then by its last
    call. *)
Lemma recovery_table_shape (error : CloudSyncError) (env : Answers) :
  table_retriggers error env = [] \/
  exists before mode,
    recovery_table error env = before ++ [SaveToCloud mode] /\
    retriggers before = [] /\
    table_retriggers error env = [mode].
Proof.
  unfold table_retriggers, recovery_table.
  destruct (Type_ error);
    try destruct (projectLimitChoice env);
    try destruct (versionConflictChoice env);
    try destruct (notCloudProjectChoice env);
    try destruct (resaveLocallyResult env);
    first
      [ left; reflexivity
      | right; exists []; eexists; repeat split; reflexivity
      | right; eexists (_ :: nil); eexists; repeat split; reflexivity
      | right; eexists (_ :: _ :: nil); eexists; repeat split; reflexivity ].
Qed.

(** C8, amended: whenever a recovery flow re-triggers a sync, it does so by
    one call of [SaveToCloud], the sync-initiation helper, made by the
    handler itself as the last call of the flow: every other call of the
    event precedes it and only the handler's log call follows it. *)
Theorem retrigger_called_before_log :
  forall this message error env mode,
    Status message = Failed ->
    Error message = Some error ->
    In mode (retriggers (calls_of (OnCloudStatusChanged message env this))) ->
    exists before,
      calls_of (OnCloudStatusChanged message env this) =
        before ++ [SaveToCloud mode; wxLogError (log_text error)] /\
      retriggers before = [] /\
      retriggers (calls_of (OnCloudStatusChanged message env this)) = [mode].
Proof.
  intros this message error env mode Hs He.
  rewrite (OnCloudStatusChanged_failed _ _ _ _ Hs He).
  rewrite !retriggers_app, update_status_no_retrigger, table_retriggers_ok.
  simpl. rewrite app_nil_r.
  destruct (recovery_table_shape error env)
    as [Hnone | (before & mode' & Htable & Hbefore & Hmode)].
  - rewrite Hnone. intros [].
  - rewrite Hmode, Htable. intros [<- | []].
    exists (calls_of (update_status message env this) ++ before).
    repeat split.
    + now rewrite <- !app_assoc.
    + now rewrite retriggers_app, update_status_no_retrigger, Hbefore.
Qed.

Lemma retrigger_called_before_log_witness :
  exists before,
    calls_of (OnCloudStatusChanged
                (failure ProjectVersionConflict "409")
                {| savesCount := 3;
                   pollResult := PR_Continue;
                   syncSuccessChoice := ViewOnlineIdentifier;
                   projectLimitChoice := VisitAudioComIdentifier;
                   versionConflictChoice := UseLocalIdentifier;
                   notCloudProjectChoice := SaveLocallyIdentifier;
                   resaveLocallyResult := true |}
                initial) =
      before ++ [SaveToCloud ForceSave;
                 wxLogError "Cloud sync has failed: 409"] /\
    retriggers before = [] /\
    retriggers
      (calls_of (OnCloudStatusChanged
                   (failure ProjectVersionConflict "409")
                   {| savesCount := 3;
                      pollResult := PR_Continue;
                      syncSuccessChoice := ViewOnlineIdentifier;
                      projectLimitChoice := VisitAudioComIdentifier;
                      versionConflictChoice := UseLocalIdentifier;
                      notCloudProjectChoice := SaveLocallyIdentifier;
                      resaveLocallyResult := true |}
                   initial)) = [ForceSave].
Proof.
  apply (retrigger_called_before_log initial
           (failure ProjectVersionConflict "409")
           {| Type_ := ProjectVersionConflict; ErrorMessage := "409" |}
           _ ForceSave eq_refl eq_refl).
  simpl. left. reflexivity.
Defined.

(** ** Answers of the progress dialog *)

Lemma cancels_only_by_poll_bind {A B} (m : M A) (f : A -> M B) :
  cancels_only_by_poll m ->
  (forall a, cancels_only_by_poll (f a)) ->
  cancels_only_by_poll (bind m f).
Proof.
  intros Hm Hf this. rewrite object_of_bind, calls_of_bind, existsb_app.
  intros H. apply Hf in H. destruct H as [H|H].
  - apply Hm in H. destruct H as [H|H]; [now left|right].
    now rewrite H.
  - right. rewrite H. apply orb_true_r.
Qed.

Lemma cancels_only_by_poll_ret {A} (a : A) : cancels_only_by_poll (ret a).
Proof. intros this H. now left. Qed.

Lemma SetUploadProgress_cancelled progress env this :
  mClosingCancelled (object_of (SetUploadProgress progress env this)) =
  mClosingCancelled this ||
  match mProgressDialog this, pollResult env with
  | Some _, PR_Cancelled => true
  | _, _ => false
  end.
Proof.
  unfold SetUploadProgress, object_of.
  destruct this as [p d c i n]; destruct d as [h|]; simpl.
  - destruct (pollResult env); simpl;
      rewrite ?orb_false_r, ?orb_true_r; reflexivity.
  - now rewrite orb_false_r.
Qed.

Lemma SetUploadProgress_cancels_only_by_poll progress env :
  cancels_only_by_poll (SetUploadProgress progress env).
Proof.
  intros this. rewrite SetUploadProgress_cancelled, SetUploadProgress_calls.
  destruct (mClosingCancelled this); [now left|]. simpl.
  destruct (mProgressDialog this); [|discriminate].
  destruct (pollResult env); try discriminate. now right.
Qed.

Lemma update_status_cancels_only_by_poll message env :
  cancels_only_by_poll (update_status message env).
Proof.
  intros this.
  unfold update_status, SetUploadProgress, object_of, calls_of, trace_of.
  destruct this as [p d c i n].
  destruct c; [now left|].
  destruct n, (IsSyncing message), d as [h|], (savesCount env =? 0),
    (pollResult env); simpl; auto.
Qed.

Lemma OnCloudStatusChanged_cancels_only_by_poll message env :
  cancels_only_by_poll (OnCloudStatusChanged message env).
Proof.
  unfold OnCloudStatusChanged.
  apply cancels_only_by_poll_bind;
    [apply update_status_cancels_only_by_poll|].
  intros _ this.
  destruct (Status message), (Error message); try (now left).
  rewrite object_of_bind, recover_object. now left.
Qed.

Lemma dispatch_cancels_only_by_poll p : cancels_only_by_poll (dispatch p).
Proof.
  destruct p; simpl.
  - apply OnCloudStatusChanged_cancels_only_by_poll.
  - apply cancels_only_by_poll_bind;
      [apply SetUploadProgress_cancels_only_by_poll|].
    intros; apply cancels_only_by_poll_ret.
Qed.

Lemma drain_cancels_only_by_poll ps : cancels_only_by_poll (drain ps).
Proof.
  induction ps as [|p ps IH]; simpl.
  - apply cancels_only_by_poll_ret.
  - apply cancels_only_by_poll_bind;
      [apply dispatch_cancels_only_by_poll | intros; apply IH].
Qed.

Lemma loop_body_cancels_only_by_poll turn :
  cancels_only_by_poll (loop_body turn).
Proof.
  unfold loop_body.
  apply cancels_only_by_poll_bind; [intros this H; now left|].
  intros dialog.
  apply cancels_only_by_poll_bind.
  { destruct dialog; intros this H; now left. }
  intros _.
  apply cancels_only_by_poll_bind; [intros this H; now left|].
  intros _. apply drain_cancels_only_by_poll.
Qed.

Lemma AllowClosing_unfold script this :
  AllowClosing script this =
  if waiting this then
    match script with
    | [] => (None, this, [])
    | turn :: rest => (loop_body turn ;; AllowClosing rest) this
    end
  else
    (Some (negb (mInSync this) || negb (mClosingCancelled this)), this, []).
Proof. destruct script; reflexivity. Qed.

Lemma AllowClosing_cancels_only_by_poll script :
  cancels_only_by_poll (AllowClosing script).
Proof.
  induction script as [|turn rest IH]; intros this;
    rewrite AllowClosing_unfold; destruct (waiting this).
  - now left.
  - now left.
  - apply cancels_only_by_poll_bind;
      [apply loop_body_cancels_only_by_poll | intros; apply IH].
  - now left.
Qed.

Lemma perform_cancels_only_by_poll op : cancels_only_by_poll (perform op).
Proof.
  destruct op; simpl.
  - apply cancels_only_by_poll_bind;
      [apply SetUploadProgress_cancels_only_by_poll|].
    intros; apply cancels_only_by_poll_ret.
  - apply OnCloudStatusChanged_cancels_only_by_poll.
  - apply cancels_only_by_poll_bind;
      [apply AllowClosing_cancels_only_by_poll|].
    intros; apply cancels_only_by_poll_ret.
Qed.

Lemma perform_all_cancels_only_by_poll ops :
  cancels_only_by_poll (perform_all ops).
Proof.
  induction ops as [|op ops IH]; simpl.
  - apply cancels_only_by_poll_ret.
  - apply cancels_only_by_poll_bind;
      [apply perform_cancels_only_by_poll | intros; apply IH].
Qed.

(** C7: when [SetUploadProgress] polls an existing progress dialog, the
    answer Cancelled makes it record the cancellation, destroy the dialog
    and return true (continue); the answer Stopped makes it return false
    (halt); any other answer makes it return true; and over any sequence of
    operations of the object the cancellation flag is raised only by a poll
    that was answered Cancelled. *)
Theorem poll_answers_handled :
  forall progress env this h,
    mProgressDialog this = Some h ->
    let r := SetUploadProgress progress env this in
    match pollResult env with
    | PR_Cancelled =>
        result_of r = true /\
        mClosingCancelled (object_of r) = true /\
        mProgressDialog (object_of r) = None /\
        calls_of r =
          [Poll h (scaled_tick progress) 10000 PR_Cancelled; DestroyProgress h]
    | PR_Stopped =>
        result_of r = false /\
        mClosingCancelled (object_of r) = mClosingCancelled this /\
        mProgressDialog (object_of r) = Some h /\
        calls_of r = [Poll h (scaled_tick progress) 10000 PR_Stopped]
    | PR_Continue =>
        result_of r = true /\
        mClosingCancelled (object_of r) = mClosingCancelled this /\
        mProgressDialog (object_of r) = Some h /\
        calls_of r = [Poll h (scaled_tick progress) 10000 PR_Continue]
    end /\
    forall ops start,
      mClosingCancelled start = false ->
      mClosingCancelled (object_of (perform_all ops start)) = true ->
      existsb is_cancelled_poll (calls_of (perform_all ops start)) = true.
Proof.
  intros progress env this h Hd r. subst r. split.
  - unfold SetUploadProgress, result_of, object_of, calls_of, trace_of.
    destruct this as [p d c i n]. simpl in Hd. subst d. simpl.
    destruct (pollResult env); simpl; auto.
  - intros ops start H0 H1.
    destruct (perform_all_cancels_only_by_poll ops start H1) as [H|H];
      [congruence | exact H].
Qed.

Lemma poll_answers_handled_witness :
  let r := SetUploadProgress Double.one
             {| savesCount := 0;
                pollResult := PR_Cancelled;
                syncSuccessChoice := ViewOnlineIdentifier;
                projectLimitChoice := VisitAudioComIdentifier;
                versionConflictChoice := UseLocalIdentifier;
                notCloudProjectChoice := SaveLocallyIdentifier;
                resaveLocallyResult := true |}
             (in_sync (Some 7%nat)) in
  result_of r = true /\
  mClosingCancelled (object_of r) = true /\
  mProgressDialog (object_of r) = None /\
  calls_of r =
    [Poll 7%nat (scaled_tick Double.one) 10000 PR_Cancelled;
     DestroyProgress 7%nat].
Proof.
  exact (proj1 (poll_answers_handled Double.one
                  {| savesCount := 0;
                     pollResult := PR_Cancelled;
                     syncSuccessChoice := ViewOnlineIdentifier;
                     projectLimitChoice := VisitAudioComIdentifier;
                     versionConflictChoice := UseLocalIdentifier;
                     notCloudProjectChoice := SaveLocallyIdentifier;
                     resaveLocallyResult := true |}
                  (in_sync (Some 7%nat)) 7%nat eq_refl)).
Defined.

(** ** Progress reports create no dialog *)

(** C9, as stated, fails: while syncing and without a progress dialog, a
    progress report, direct or through a status event, creates none and
    calls nothing. *)
Lemma report_creates_no_dialog :
  mInSync (in_sync None) = true /\
  SetUploadProgress Double.one no_answers (in_sync None) =
    (true,
     {| mProgress := Double.one; mProgressDialog := None;
        mClosingCancelled := false; mInSync := true;
        mNeedsFirstSaveDialog := false |},
     []) /\
  mProgressDialog
    (object_of (OnCloudStatusChanged (syncing Double.one) no_answers
                  (in_sync None))) = None /\
  calls_of (OnCloudStatusChanged (syncing Double.one) no_answers
              (in_sync None)) = [GetSavesCount 1].
Proof. repeat split. Qed.

Lemma SetUploadProgress_keeps_or_drops progress env :
  keeps_or_drops_dialog (SetUploadProgress progress env).
Proof.
  intros this.
  unfold SetUploadProgress, object_of, calls_of, trace_of.
  destruct this as [p d c i n]; destruct d as [h|]; simpl; auto.
  destruct (pollResult env); simpl; auto.
Qed.

Lemma OnCloudStatusChanged_keeps_or_drops message env :
  keeps_or_drops_dialog (OnCloudStatusChanged message env).
Proof.
  intros this. split.
  - destruct (Status message) eqn:Hs;
      try (rewrite OnCloudStatusChanged_other by (left; congruence));
      try (destruct (Error message) as [error|] eqn:He;
           [rewrite (OnCloudStatusChanged_failed _ _ _ _ Hs He)
           |rewrite OnCloudStatusChanged_other by (now right)]).
    all: rewrite ?filter_app.
    all: assert (Hu : filter is_MakeProgress
                        (calls_of (update_status message env this)) = [])
      by (unfold update_status, SetUploadProgress, calls_of, trace_of;
          destruct this as [p d c i n];
          destruct n, (IsSyncing message), d as [h|], (savesCount env =? 0),
            (pollResult env); reflexivity).
    all: rewrite Hu; try reflexivity.
    simpl. rewrite app_nil_r.
    unfold recovery_table.
    destruct (Type_ error);
      try destruct (projectLimitChoice env);
      try destruct (versionConflictChoice env);
      try destruct (notCloudProjectChoice env);
      try destruct (resaveLocallyResult env); reflexivity.
  - unfold OnCloudStatusChanged. rewrite object_of_bind.
    assert (Hu : mProgressDialog (object_of (update_status message env this))
                 = None \/
                 mProgressDialog (object_of (update_status message env this))
                 = mProgressDialog this)
      by (unfold update_status, SetUploadProgress, object_of;
          destruct this as [p d c i n];
          destruct n, (IsSyncing message), d as [h|], (savesCount env =? 0),
            (pollResult env); simpl; auto).
    destruct (Status message), (Error message); try exact Hu.
    rewrite object_of_bind, recover_object. exact Hu.
Qed.

(** C9, amended: a progress report never creates a progress dialog: without
    one, [SetUploadProgress] only stores the progress value and returns
    true, and the status handler makes no [MakeProgress] call and leaves
    the dialog as it was or destroys it.  A dialog comes into existence
    only in the wait loop of [AllowClosing], whose first call, when it has
    to wait and there is no dialog, is [MakeProgress]; once a dialog
    exists, every report polls that same dialog. *)
Theorem dialog_created_only_by_closing_gate :
  forall this progress env,
    (mProgressDialog this = None ->
     calls_of (SetUploadProgress progress env this) = [] /\
     result_of (SetUploadProgress progress env this) = true /\
     mProgressDialog (object_of (SetUploadProgress progress env this)) = None /\
     mProgress (object_of (SetUploadProgress progress env this)) = progress) /\
    (forall message, keeps_or_drops_dialog (OnCloudStatusChanged message env)) /\
    (forall turn rest,
       waiting this = true -> mProgressDialog this = None ->
       exists title text options later,
         calls_of (AllowClosing (turn :: rest) this) =
           MakeProgress title text options (fresh turn) :: Yield :: later) /\
    (forall h,
       mProgressDialog this = Some h ->
       exists later,
         calls_of (SetUploadProgress progress env this) =
           Poll h (scaled_tick progress) 10000 (pollResult env) :: later /\
         filter is_MakeProgress later = []).
Proof.
  intros this progress env. repeat split.
  - rewrite SetUploadProgress_calls, H. reflexivity.
  - unfold SetUploadProgress, result_of.
    destruct this as [p d c i n]. simpl in H. now subst d.
  - unfold SetUploadProgress, object_of.
    destruct this as [p d c i n]. simpl in H. now subst d.
  - unfold SetUploadProgress, object_of.
    destruct this as [p d c i n]; destruct d as [h|]; simpl;
      [destruct (pollResult env)|]; reflexivity.
  - apply OnCloudStatusChanged_keeps_or_drops.
  - apply OnCloudStatusChanged_keeps_or_drops.
  - intros turn rest Hw Hd.
    rewrite AllowClosing_unfold, Hw, calls_of_bind.
    unfold loop_body. rewrite !calls_of_bind.
    unfold get at 1 2. unfold result_of at 1, calls_of at 1. simpl.
    rewrite Hd. rewrite !calls_of_bind.
    do 4 eexists. reflexivity.
  - intros h Hd. rewrite SetUploadProgress_calls, Hd.
    eexists; split; [reflexivity|].
    destruct (pollResult env); reflexivity.
Qed.

Lemma dialog_created_only_by_closing_gate_witness :
  calls_of (SetUploadProgress Double.one no_answers (in_sync None)) = [] /\
  result_of (SetUploadProgress Double.one no_answers (in_sync None)) = true /\
  mProgressDialog
    (object_of (SetUploadProgress Double.one no_answers (in_sync None)))
    = None /\
  mProgress (object_of (SetUploadProgress Double.one no_answers (in_sync None)))
    = Double.one.
Proof.
  exact (proj1 (dialog_created_only_by_closing_gate
                  (in_sync None) Double.one no_answers) eq_refl).
Defined.

(** ** The closing gate *)

Lemma AllowClosing_not_waiting script this :
  waiting this = false ->
  AllowClosing script this =
  (Some (negb (mInSync this) || negb (mClosingCancelled this)), this, []).
Proof. intros H. now rewrite AllowClosing_unfold, H. Qed.

(** When the loop ends, its condition is false and the value returned is
    the return expression on the object as it is then; when the script of
    turns runs out first, the condition still holds. *)
Lemma AllowClosing_exit script :
  forall this,
    match result_of (AllowClosing script this) with
    | Some b =>
        waiting (object_of (AllowClosing script this)) = false /\
        b = negb (mInSync (object_of (AllowClosing script this)))
            || negb (mClosingCancelled (object_of (AllowClosing script this)))
    | None => waiting (object_of (AllowClosing script this)) = true
    end.
Proof.
  induction script as [|turn rest IH]; intros this;
    rewrite AllowClosing_unfold; destruct (waiting this) eqn:Hw; simpl;
    auto.
  rewrite result_of_bind, object_of_bind. apply IH.
Qed.

(** The loop returns as soon as a turn leaves the object not waiting. *)
Lemma AllowClosing_returns turn rest this :
  waiting this = true ->
  waiting (object_of (loop_body turn this)) = false ->
  result_of (AllowClosing (turn :: rest) this) =
  Some (negb (mInSync (object_of (loop_body turn this)))
        || negb (mClosingCancelled (object_of (loop_body turn this)))).
Proof.
  intros Hw Hn.
  rewrite AllowClosing_unfold, Hw, result_of_bind.
  now rewrite (AllowClosing_not_waiting rest _ Hn).
Qed.

(** C3: [AllowClosing] returns the value of
    [!mInSync || !mClosingCancelled] on the object as it is when the wait
    loop has exited (and the loop is left only with its condition false);
    when the object is not syncing at the call, it returns true at once,
    whatever the environment would do, without any call, so without
    creating a progress dialog, and leaves the object unchanged. *)
Theorem AllowClosing_returns_exit_expression :
  forall script this,
    match result_of (AllowClosing script this) with
    | Some b =>
        waiting (object_of (AllowClosing script this)) = false /\
        b = negb (mInSync (object_of (AllowClosing script this)))
            || negb (mClosingCancelled (object_of (AllowClosing script this)))
    | None => waiting (object_of (AllowClosing script this)) = true
    end /\
    (mInSync this = false ->
     AllowClosing script this = (Some true, this, [])).
Proof.
  intros script this. split; [apply AllowClosing_exit|].
  intros Hi.
  rewrite AllowClosing_not_waiting by (unfold waiting; now rewrite Hi).
  now rewrite Hi.
Qed.

Lemma AllowClosing_returns_exit_expression_witness :
  AllowClosing
    [{| fresh := 1%nat;
        pending := [StatusChanged (syncing Double.one) cancel_answers] |}]
    initial = (Some true, initial, []).
Proof.
  exact (proj2 (AllowClosing_returns_exit_expression
                  [{| fresh := 1%nat;
                      pending := [StatusChanged (syncing Double.one)
                                    cancel_answers] |}]
                  initial) eq_refl).
Defined.

(** ** Cancelling the wait *)

(** C2, as stated, fails: the object is syncing, the gate shows its dialog,
    the user cancels it while the sync goes on, and [AllowClosing] returns
    false. *)
Lemma cancelled_wait_blocks_closing :
  let r := AllowClosing
             [{| fresh := 1%nat;
                 pending := [StatusChanged (syncing Double.one)
                               cancel_answers] |}]
             (in_sync None) in
  result_of r = Some false /\
  mInSync (object_of r) = true /\
  mClosingCancelled (object_of r) = true /\
  calls_of r =
    [MakeProgress "Save to audio.com"
       "Project is syncing with audio.com. Do you want to stop the sync process?"
       [ProgressShowCancel; ProgressShowStop] 1%nat;
     Yield;
     GetSavesCount 1;
     Poll 1%nat 10000 10000 PR_Cancelled;
     DestroyProgress 1%nat].
Proof. repeat split. Qed.

(** The first turn of a wait in which the user cancels the dialog while a
    syncing event is delivered. *)
Lemma loop_body_cancel turn progress error env this :
  pending turn =
    [StatusChanged
       {| Status := Syncing; Progress := progress; Error := error |} env] ->
  pollResult env = PR_Cancelled ->
  mInSync (object_of (loop_body turn this)) = true /\
  mClosingCancelled (object_of (loop_body turn this)) = true.
Proof.
  intros Hp Hc.
  destruct turn as [h0 ps]. simpl in Hp. subst ps.
  destruct env as [count answer a1 a2 a3 a4 a5]. simpl in Hc. subst answer.
  unfold loop_body, object_of, drain, dispatch, OnCloudStatusChanged,
    update_status, SetUploadProgress.
  destruct this as [p d c i n].
  destruct d as [h|], n; simpl; destruct (count =? 0); simpl; auto.
Qed.

(** C2, amended: if the object is syncing and the user cancels the wait
    dialog while the sync goes on, [AllowClosing] returns false: closing is
    refused; and whenever [AllowClosing] returns while the object is still
    syncing, it returns false and a cancellation is recorded. *)
Theorem cancelled_wait_refuses_closing :
  forall this turn rest progress error env,
    mInSync this = true ->
    mClosingCancelled this = false ->
    pending turn =
      [StatusChanged
         {| Status := Syncing; Progress := progress; Error := error |} env] ->
    pollResult env = PR_Cancelled ->
    result_of (AllowClosing (turn :: rest) this) = Some false /\
    forall script start b,
      result_of (AllowClosing script start) = Some b ->
      mInSync (object_of (AllowClosing script start)) = true ->
      b = false /\
      mClosingCancelled (object_of (AllowClosing script start)) = true.
Proof.
  intros this turn rest progress error env Hi Hc Hp Hr. split.
  - destruct (loop_body_cancel turn progress error env this Hp Hr)
      as [Hi' Hc'].
    rewrite AllowClosing_returns.
    + now rewrite Hi', Hc'.
    + unfold waiting. now rewrite Hi, Hc.
    + unfold waiting. now rewrite Hi', Hc'.
  - intros script start b Hb Hs.
    pose proof (AllowClosing_exit script start) as H.
    rewrite Hb in H. destruct H as [Hw ->].
    unfold waiting in Hw. rewrite Hs in Hw. simpl in Hw.
    apply negb_false_iff in Hw. rewrite Hs, Hw. auto.
Qed.

Lemma cancelled_wait_refuses_closing_witness :
  result_of
    (AllowClosing
       [{| fresh := 4%nat;
           pending := [StatusChanged
                         {| Status := Syncing; Progress := Double.one;
                            Error := None |} cancel_answers] |}]
       (in_sync (Some 2%nat))) = Some false.
Proof.
  exact (proj1 (cancelled_wait_refuses_closing
                  (in_sync (Some 2%nat))
                  {| fresh := 4%nat;
                     pending := [StatusChanged
                                   {| Status := Syncing;
                                      Progress := Double.one;
                                      Error := None |} cancel_answers] |}
                  [] Double.one None cancel_answers
                  eq_refl eq_refl eq_refl eq_refl)).
Defined.

(** ** Permanence of the cancellation *)

Lemma keeps_cancelled_bind {A B} (m : M A) (f : A -> M B) :
  keeps_cancelled m -> (forall a, keeps_cancelled (f a)) ->
  keeps_cancelled (bind m f).
Proof.
  intros Hm Hf this H. rewrite object_of_bind. now apply Hf, Hm.
Qed.

Lemma SetUploadProgress_keeps_cancelled progress env :
  keeps_cancelled (SetUploadProgress progress env).
Proof.
  intros this H. now rewrite SetUploadProgress_cancelled, H.
Qed.

Lemma OnCloudStatusChanged_keeps_cancelled message env :
  keeps_cancelled (OnCloudStatusChanged message env).
Proof.
  unfold OnCloudStatusChanged. apply keeps_cancelled_bind.
  - intros this.
    unfold update_status, SetUploadProgress, object_of.
    destruct this as [p d c i n].
    destruct n, (IsSyncing message), d as [h|], (savesCount env =? 0),
      (pollResult env); simpl; auto.
  - intros _ this H.
    destruct (Status message), (Error message); try exact H.
    now rewrite object_of_bind, recover_object.
Qed.

Lemma AllowClosing_cancelled script this :
  mClosingCancelled this = true ->
  AllowClosing script this = (Some (negb (mInSync this)), this, []).
Proof.
  intros H.
  rewrite AllowClosing_not_waiting
    by (unfold waiting; rewrite H; apply andb_false_r).
  now rewrite H, orb_false_r.
Qed.

Lemma perform_keeps_cancelled op : keeps_cancelled (perform op).
Proof.
  destruct op; simpl.
  - apply keeps_cancelled_bind;
      [apply SetUploadProgress_keeps_cancelled | intros _ this H; exact H].
  - apply OnCloudStatusChanged_keeps_cancelled.
  - intros this H. unfold bind.
    now rewrite (AllowClosing_cancelled script this H).
Qed.

Lemma perform_all_keeps_cancelled ops : keeps_cancelled (perform_all ops).
Proof.
  induction ops as [|op ops IH]; simpl.
  - intros this H; exact H.
  - apply keeps_cancelled_bind;
      [apply perform_keeps_cancelled | intros; apply IH].
Qed.

(** C10: once [mClosingCancelled] is true it stays true through every
    sequence of operations of the object; every later [AllowClosing] then
    leaves its loop at once, whatever the environment would do: it makes no
    call (so creates no progress dialog), leaves the object unchanged and
    returns true exactly when the object is not syncing at that moment. *)
Theorem cancellation_is_permanent :
  forall ops script this,
    mClosingCancelled this = true ->
    let later := object_of (perform_all ops this) in
    mClosingCancelled later = true /\
    AllowClosing script later = (Some (negb (mInSync later)), later, []).
Proof.
  intros ops script this H later.
  assert (Hl : mClosingCancelled later = true)
    by now apply perform_all_keeps_cancelled.
  split; [exact Hl | now apply AllowClosing_cancelled].
Qed.

Lemma cancellation_is_permanent_witness :
  let this := {| mProgress := Double.zero; mProgressDialog := None;
                 mClosingCancelled := true; mInSync := true;
                 mNeedsFirstSaveDialog := false |} in
  let ops := [DoOnCloudStatusChanged (syncing Double.one) no_answers;
              DoAllowClosing [];
              DoSetUploadProgress Double.one cancel_answers] in
  let script := [{| fresh := 3%nat; pending := [] |}] in
  let later := object_of (perform_all ops this) in
  mClosingCancelled later = true /\
  AllowClosing script later = (Some false, later, []).
Proof.
  exact (cancellation_is_permanent
           [DoOnCloudStatusChanged (syncing Double.one) no_answers;
            DoAllowClosing [];
            DoSetUploadProgress Double.one cancel_answers]
           [{| fresh := 3%nat; pending := [] |}]
           {| mProgress := Double.zero; mProgressDialog := None;
              mClosingCancelled := true; mInSync := true;
              mNeedsFirstSaveDialog := false |}
           eq_refl).
Defined.

(** ** Showing the first-save dialog *)

Lemma owed_after_app owed xs ys :
  owed_after owed (xs ++ ys) = owed_after (owed_after owed xs) ys.
Proof.
  revert owed. induction xs as [|c xs IH]; intros owed; simpl;
    [reflexivity|]. destruct c; apply IH.
Qed.

Lemma announced_only_when_owed_app owed xs ys :
  announced_only_when_owed owed (xs ++ ys) =
  announced_only_when_owed owed xs &&
  announced_only_when_owed (owed_after owed xs) ys.
Proof.
  revert owed. induction xs as [|c xs IH]; intros owed; simpl;
    [reflexivity|]. destruct c; rewrite ?IH; try reflexivity.
  now rewrite andb_assoc.
Qed.

Lemma neutral_calls owed xs :
  forallb is_neutral xs = true ->
  owed_after owed xs = owed /\
  announced_only_when_owed owed xs = true /\
  announcements xs = 0%nat.
Proof.
  induction xs as [|c xs IH]; simpl; [auto|].
  destruct c; simpl; try discriminate; exact IH.
Qed.

Lemma recovery_table_neutral error env :
  forallb is_neutral (recovery_table error env ++ [wxLogError (log_text error)])
  = true.
Proof.
  unfold recovery_table.
  destruct (Type_ error);
    try destruct (projectLimitChoice env);
    try destruct (versionConflictChoice env);
    try destruct (notCloudProjectChoice env);
    try destruct (resaveLocallyResult env); reflexivity.
Qed.

(** The handler's calls: those of its status part, then neutral ones. *)
Lemma OnCloudStatusChanged_calls message env this :
  exists tail,
    calls_of (OnCloudStatusChanged message env this) =
      calls_of (update_status message env this) ++ tail /\
    forallb is_neutral tail = true.
Proof.
  destruct (Status message) eqn:Hs;
    try (exists []; split; [|reflexivity]; rewrite app_nil_r;
         apply OnCloudStatusChanged_other; left; congruence).
  destruct (Error message) as [error|] eqn:He.
  - eexists; split; [apply (OnCloudStatusChanged_failed _ _ _ _ Hs He)|].
    apply recovery_table_neutral.
  - exists []; split; [|reflexivity]. rewrite app_nil_r.
    apply OnCloudStatusChanged_other. now right.
Qed.

Lemma OnCloudStatusChanged_object message env this :
  object_of (OnCloudStatusChanged message env this) =
  object_of (update_status message env this).
Proof.
  unfold OnCloudStatusChanged. rewrite object_of_bind.
  destruct (Status message), (Error message); try reflexivity.
  now rewrite object_of_bind, recover_object.
Qed.

Lemma OnCloudStatusChanged_trace message env this :
  announced_with_flag_lowered
    (trace_of (OnCloudStatusChanged message env this)).
Proof.
  unfold OnCloudStatusChanged, announced_with_flag_lowered.
  rewrite trace_of_bind. apply Forall_app. split.
  - unfold update_status, SetUploadProgress, trace_of.
    destruct this as [p d c i n].
    destruct n, (IsSyncing message), d as [h|], (savesCount env =? 0),
      (pollResult env); simpl;
      repeat (constructor; simpl; try discriminate; auto).
  - set (this' := object_of (update_status message env this)).
    destruct (Status message), (Error message) as [error|];
      try (now constructor).
    rewrite trace_of_bind. apply Forall_app. split.
    + unfold recover, trace_of.
      destruct (Type_ error);
        try destruct (projectLimitChoice env);
        try destruct (versionConflictChoice env);
        try destruct (notCloudProjectChoice env);
        try destruct (resaveLocallyResult env); simpl;
        repeat (constructor; simpl; try discriminate).
    + repeat (constructor; simpl; try discriminate).
Qed.

(** The status part of the handler, summarised: the flag it leaves, how
    often it announces, and that it announces only when owed. *)
Lemma update_status_summary message env this :
  let calls := calls_of (update_status message env this) in
  let owed := mNeedsFirstSaveDialog this || (savesCount env =? 0) in
  mNeedsFirstSaveDialog (object_of (update_status message env this)) =
    IsSyncing message && owed /\
  announcements calls =
    (if negb (IsSyncing message) && owed then 1%nat else 0%nat) /\
  owed_after (mNeedsFirstSaveDialog this) calls = IsSyncing message && owed /\
  announced_only_when_owed (mNeedsFirstSaveDialog this) calls = true.
Proof.
  unfold update_status, SetUploadProgress, object_of, calls_of, trace_of.
  destruct this as [p d c i n].
  destruct (savesCount env =? 0) eqn:Hz;
    destruct n, (IsSyncing message), d as [h|], (pollResult env); simpl;
    rewrite ?Hz; auto.
Qed.

Lemma OnCloudStatusChanged_summary message env this :
  let calls := calls_of (OnCloudStatusChanged message env this) in
  let owed := mNeedsFirstSaveDialog this || (savesCount env =? 0) in
  mNeedsFirstSaveDialog (object_of (OnCloudStatusChanged message env this)) =
    IsSyncing message && owed /\
  announcements calls =
    (if negb (IsSyncing message) && owed then 1%nat else 0%nat) /\
  owed_after (mNeedsFirstSaveDialog this) calls = IsSyncing message && owed /\
  announced_only_when_owed (mNeedsFirstSaveDialog this) calls = true.
Proof.
  intros calls owed. subst calls.
  destruct (OnCloudStatusChanged_calls message env this) as (tail & -> & Ht).
  rewrite OnCloudStatusChanged_object.
  destruct (update_status_summary message env this) as (H1 & H2 & H3 & H4).
  fold owed in H1, H2, H3.
  rewrite announcements_app, owed_after_app, announced_only_when_owed_app.
  rewrite H1, H2, H3, H4.
  destruct (neutral_calls (IsSyncing message && owed) tail Ht)
    as (N1 & N2 & N3).
  rewrite N1, N2, N3. repeat split. apply Nat.add_0_r.
Qed.

Lemma deliver_app xs ys this :
  calls_of (deliver (xs ++ ys) this) =
    calls_of (deliver xs this) ++
    calls_of (deliver ys (object_of (deliver xs this))) /\
  object_of (deliver (xs ++ ys) this) =
    object_of (deliver ys (object_of (deliver xs this))).
Proof.
  revert this. induction xs as [|[message env] xs IH]; intros this; simpl.
  - split; reflexivity.
  - rewrite !calls_of_bind, !object_of_bind.
    destruct (IH (object_of (OnCloudStatusChanged message env this)))
      as [-> ->].
    split; [apply app_assoc | reflexivity].
Qed.

Lemma deliver_owed events :
  forall this,
    owed_after (mNeedsFirstSaveDialog this) (calls_of (deliver events this)) =
      mNeedsFirstSaveDialog (object_of (deliver events this)) /\
    announced_only_when_owed (mNeedsFirstSaveDialog this)
      (calls_of (deliver events this)) = true.
Proof.
  induction events as [|[message env] events IH]; intros this; simpl.
  - split; reflexivity.
  - rewrite calls_of_bind, object_of_bind.
    rewrite owed_after_app, announced_only_when_owed_app.
    destruct (OnCloudStatusChanged_summary message env this)
      as (H1 & _ & H3 & H4).
    rewrite H3, H4, <- H1. apply IH.
Qed.

Lemma deliver_trace events :
  forall this, announced_with_flag_lowered (trace_of (deliver events this)).
Proof.
  induction events as [|[message env] events IH]; intros this; simpl.
  - constructor.
  - rewrite trace_of_bind. apply Forall_app. split.
    + apply OnCloudStatusChanged_trace.
    + apply IH.
Qed.

Lemma deliver_quiet events :
  forall this,
    mNeedsFirstSaveDialog this = false ->
    Forall counter_nonzero events ->
    announcements (calls_of (deliver events this)) = 0%nat /\
    mNeedsFirstSaveDialog (object_of (deliver events this)) = false.
Proof.
  induction events as [|[message env] events IH]; intros this Hf Hz; simpl.
  - split; [reflexivity | exact Hf].
  - inversion Hz as [|? ? Hnz Hrest]; subst.
    unfold counter_nonzero in Hnz. simpl in Hnz.
    apply Z.eqb_neq in Hnz.
    rewrite calls_of_bind, object_of_bind, announcements_app.
    destruct (OnCloudStatusChanged_summary message env this)
      as (H1 & H2 & _ & _).
    rewrite Hf, Hnz in H1, H2. simpl in H1, H2.
    rewrite andb_false_r in H1, H2.
    rewrite H2. apply IH; assumption.
Qed.

(** C4, as stated, fails: the first sync of a project that was never saved
    is cancelled, the sync is retried and succeeds; the dialog is shown
    after the failure and again after the success. *)
Lemma announced_twice :
  calls_of (deliver [(syncing half, zero_count);
                     (failure Cancelled "cancelled", zero_count);
                     (syncing half, zero_count);
                     (succeeded, no_answers)] initial) =
    [GetSavesCount 0;
     ShowSyncSuccessDialog (OtherIdentifier "close");
     wxLogError "Cloud sync has failed: cancelled";
     GetSavesCount 0;
     ShowSyncSuccessDialog (OtherIdentifier "close")] /\
  ~ announced_at_most_once.
Proof.
  split; [reflexivity|].
  intros H.
  specialize (H [(syncing half, zero_count);
                 (failure Cancelled "cancelled", zero_count);
                 (syncing half, zero_count);
                 (succeeded, no_answers)]).
  vm_compute in H. lia.
Qed.

Lemma counter_queries_app xs ys :
  counter_queries (xs ++ ys) = counter_queries xs ++ counter_queries ys.
Proof.
  induction xs as [|c xs IH]; [reflexivity|].
  destruct c; simpl; rewrite ?IH; reflexivity.
Qed.

Lemma neutral_queries xs :
  forallb is_neutral xs = true -> counter_queries xs = [].
Proof.
  induction xs as [|c xs IH]; simpl; [auto|].
  destruct c; simpl; try discriminate; exact IH.
Qed.

Lemma OnCloudStatusChanged_queries message env this :
  counter_queries (calls_of (OnCloudStatusChanged message env this)) =
  if mNeedsFirstSaveDialog this then [] else [savesCount env].
Proof.
  destruct (OnCloudStatusChanged_calls message env this) as (tail & -> & Ht).
  rewrite counter_queries_app, (neutral_queries tail Ht), app_nil_r.
  unfold update_status, SetUploadProgress, calls_of.
  destruct this as [p d c i n].
  destruct (savesCount env =? 0) eqn:Hz;
    destruct n, (IsSyncing message), d as [h|], (pollResult env); simpl;
    rewrite ?Hz; reflexivity.
Qed.

Lemma deliver_due events :
  forall this,
    announcements (calls_of (deliver events this)) =
      announcements_due (mNeedsFirstSaveDialog this) events /\
    counter_queries (calls_of (deliver events this)) =
      queries_due (mNeedsFirstSaveDialog this) events.
Proof.
  induction events as [|[message env] events IH]; intros this; simpl.
  - split; reflexivity.
  - rewrite calls_of_bind, announcements_app, counter_queries_app.
    destruct (OnCloudStatusChanged_summary message env this)
      as (H1 & H2 & _ & _).
    rewrite H2, OnCloudStatusChanged_queries.
    destruct (IH (object_of (OnCloudStatusChanged message env this)))
      as [-> ->].
    rewrite H1. split; reflexivity.
Qed.

(** C4, amended: over every sequence of status events delivered to an
    object whose flag is lowered at the start, the first-save dialog is
    shown only while it is owed, that is after the save counter was queried
    and answered exactly 0 since the previous showing (or since the start),
    and the flag is already lowered when it is shown; each event shows it
    at most once, and only an event that is not syncing.  Exactly: every
    event that finds the flag lowered queries the counter once, and an event
    that finds it raised does not query; an event shows the dialog once when
    it is not syncing and the flag is raised or the counter answers 0, and
    not otherwise; it leaves the flag raised exactly when it is syncing and
    the flag was raised or the counter answered 0.  So the number of
    showings and the queries of the whole sequence are those the events are
    due, the dialog is shown once more by a later event that is not syncing
    and observes the counter as 0, and it is not shown again for as long as
    every later event finds the counter different from 0. *)
Theorem announcement_only_when_owed :
  forall events this,
    mNeedsFirstSaveDialog this = false ->
    announced_only_when_owed false (calls_of (deliver events this)) = true /\
    announced_with_flag_lowered (trace_of (deliver events this)) /\
    (forall message env start,
       (announcements (calls_of (OnCloudStatusChanged message env start)) <= 1)%nat /\
       (announcements (calls_of (OnCloudStatusChanged message env start)) = 1%nat ->
        IsSyncing message = false /\
        mNeedsFirstSaveDialog
          (object_of (OnCloudStatusChanged message env start)) = false)) /\
    (forall later,
       mNeedsFirstSaveDialog (object_of (deliver events this)) = false ->
       Forall counter_nonzero later ->
       announcements (calls_of (deliver (events ++ later) this)) =
       announcements (calls_of (deliver events this))) /\
    (forall message env start,
       counter_queries (calls_of (OnCloudStatusChanged message env start)) =
         (if mNeedsFirstSaveDialog start then [] else [savesCount env]) /\
       announcements (calls_of (OnCloudStatusChanged message env start)) =
         (if negb (IsSyncing message) &&
             (mNeedsFirstSaveDialog start || (savesCount env =? 0))
          then 1%nat else 0%nat) /\
       mNeedsFirstSaveDialog
         (object_of (OnCloudStatusChanged message env start)) =
         IsSyncing message &&
         (mNeedsFirstSaveDialog start || (savesCount env =? 0))) /\
    announcements (calls_of (deliver events this)) =
      announcements_due false events /\
    counter_queries (calls_of (deliver events this)) =
      queries_due false events /\
    (forall message env,
       mNeedsFirstSaveDialog (object_of (deliver events this)) = false ->
       IsSyncing message = false ->
       savesCount env = 0 ->
       announcements (calls_of (deliver (events ++ [(message, env)]) this)) =
       S (announcements (calls_of (deliver events this)))).
Proof.
  intros events this Hf.
  split; [|split; [|split; [|split; [|split; [|split; [|split]]]]]].
  - destruct (deliver_owed events this) as [_ H]. now rewrite Hf in H.
  - apply deliver_trace.
  - intros message env start.
    destruct (OnCloudStatusChanged_summary message env start)
      as (H1 & H2 & _ & _).
    split.
    + rewrite H2. clear H1 H2. destruct (_ && _); lia.
    + intros H. rewrite H2 in H. rewrite H1.
      destruct (IsSyncing message); [discriminate | split; reflexivity].
  - intros later Hl Hz.
    destruct (deliver_app events later this) as [-> _].
    rewrite announcements_app.
    destruct (deliver_quiet later _ Hl Hz) as [-> _]. apply Nat.add_0_r.
  - intros message env start.
    destruct (OnCloudStatusChanged_summary message env start)
      as (H1 & H2 & _ & _).
    split; [apply OnCloudStatusChanged_queries | split; assumption].
  - destruct (deliver_due events this) as [H _]. now rewrite Hf in H.
  - destruct (deliver_due events this) as [_ H]. now rewrite Hf in H.
  - intros message env Hl Hs Hc.
    destruct (deliver_app events [(message, env)] this) as [-> _].
    rewrite announcements_app.
    destruct (deliver_due [(message, env)] (object_of (deliver events this)))
      as [-> _].
    simpl. rewrite Hl, Hs, Hc. simpl. lia.
Qed.

Lemma announcement_only_when_owed_witness :
  announced_only_when_owed false
    (calls_of (deliver [(syncing half, zero_count); (succeeded, no_answers)]
                 initial)) = true /\
  announced_with_flag_lowered
    (trace_of (deliver [(syncing half, zero_count); (succeeded, no_answers)]
                 initial)) /\
  announcements
    (calls_of (deliver [(syncing half, zero_count); (succeeded, no_answers)]
                 initial)) = 1%nat.
Proof.
  destruct (announcement_only_when_owed
              [(syncing half, zero_count); (succeeded, no_answers)]
              initial eq_refl) as (H1 & H2 & _ & _ & _ & H6 & _).
  split; [exact H1 | split; [exact H2 | exact H6]].
Defined.

(** ** Number of binary digits *)

Lemma digits2_pos_size (p : positive) : digits2_pos p = Pos.size p.
Proof. induction p; simpl; congruence. Qed.

Lemma digits2_pos_bounds (p : positive) :
  2 ^ (Zpos (digits2_pos p) - 1) <= Zpos p < 2 ^ Zpos (digits2_pos p).
Proof.
  rewrite digits2_pos_size. split.
  - assert (H2 : Zpos (2 ^ Pos.size p) <= Zpos (p~0))
      by apply Pos2Z.pos_le_pos, Pos.size_le.
    rewrite Pos2Z.inj_pow in H2. change (Zpos p~0) with (2 * Zpos p) in H2.
    replace (Zpos (Pos.size p)) with (Z.succ (Zpos (Pos.size p) - 1)) in H2
      by lia.
    rewrite Z.pow_succ_r in H2 by lia. lia.
  - assert (H2 : Zpos p < Zpos (2 ^ Pos.size p))
      by apply Pos2Z.pos_lt_pos, Pos.size_gt.
    now rewrite Pos2Z.inj_pow in H2.
Qed.

Lemma digits_unique (n d : Z) :
  0 < d -> 2 ^ (d - 1) <= n < 2 ^ d -> Zdigits2 n = d.
Proof.
  intros Hd [Hlo Hhi].
  assert (Hn : 0 < n) by (pose proof (Z.pow_pos_nonneg 2 (d - 1)); lia).
  destruct n as [|p|p]; try lia. simpl.
  pose proof (digits2_pos_bounds p) as [Plo Phi].
  set (k := Zpos (digits2_pos p)) in *.
  assert (Hk : 0 < k) by (unfold k; lia).
  destruct (Z.lt_trichotomy k d) as [Hlt|[Heq|Hgt]]; [|exact Heq|].
  - assert (2 ^ k <= 2 ^ (d - 1)) by (apply Z.pow_le_mono_r; lia). lia.
  - assert (2 ^ d <= 2 ^ (k - 1)) by (apply Z.pow_le_mono_r; lia). lia.
Qed.

Lemma digits_bounds (n : Z) :
  0 < n -> 0 < Zdigits2 n /\ 2 ^ (Zdigits2 n - 1) <= n < 2 ^ Zdigits2 n.
Proof.
  intros Hn. destruct n as [|p|p]; try lia. simpl.
  split; [lia | apply digits2_pos_bounds].
Qed.

Lemma digits_mono (a b : Z) : 0 < a -> a <= b -> Zdigits2 a <= Zdigits2 b.
Proof.
  intros Ha Hab.
  destruct (digits_bounds a Ha) as [Da [Alo Ahi]].
  destruct (digits_bounds b ltac:(lia)) as [Db [Blo Bhi]].
  destruct (Z_le_gt_dec (Zdigits2 a) (Zdigits2 b)) as [H|H]; [exact H|].
  assert (2 ^ Zdigits2 b <= 2 ^ (Zdigits2 a - 1))
    by (apply Z.pow_le_mono_r; lia).
  lia.
Qed.

Lemma digits_shift (n k : Z) :
  0 < n -> 0 <= k -> Zdigits2 (n * 2 ^ k) = Zdigits2 n + k.
Proof.
  intros Hn Hk.
  destruct (digits_bounds n Hn) as [Dn [Lo Hi]].
  apply digits_unique; [lia|].
  replace (Zdigits2 n + k - 1) with ((Zdigits2 n - 1) + k) by lia.
  rewrite !Z.pow_add_r by lia.
  pose proof (Z.pow_pos_nonneg 2 k). nia.
Qed.

(** ** Shifting right with round and sticky bits *)

Lemma iter_pos_nat {A} (f : A -> A) (p : positive) (x : A) :
  iter_pos f p x = Nat.iter (Pos.to_nat p) f x.
Proof.
  revert x. induction p as [p IH|p IH|]; intros x.
  - rewrite Pos2Nat.inj_xI. cbn [iter_pos]. rewrite !IH.
    replace (S (2 * Pos.to_nat p)) with (Pos.to_nat p + (Pos.to_nat p + 1))%nat
      by lia.
    rewrite !Nat.iter_add. reflexivity.
  - rewrite Pos2Nat.inj_xO. cbn [iter_pos]. rewrite !IH.
    replace (2 * Pos.to_nat p)%nat with (Pos.to_nat p + Pos.to_nat p)%nat
      by lia.
    rewrite Nat.iter_add. reflexivity.
  - reflexivity.
Qed.

Lemma shr_1_nonneg (mrs : shr_record) :
  0 <= shr_m mrs ->
  shr_1 mrs =
  {| shr_m := shr_m mrs / 2;
     shr_r := Z.odd (shr_m mrs);
     shr_s := shr_r mrs || shr_s mrs |}.
Proof.
  destruct mrs as [m r s]. simpl. intros Hm.
  destruct m as [|p|p]; [reflexivity| |lia].
  destruct p as [p|p|].
  - f_equal. rewrite Pos2Z.inj_xI.
    replace (2 * Zpos p + 1) with (1 + Zpos p * 2) by lia.
    rewrite Z.div_add by lia. reflexivity.
  - f_equal. rewrite Pos2Z.inj_xO.
    rewrite Z.mul_comm, Z.div_mul by lia. reflexivity.
  - reflexivity.
Qed.

Lemma shr_iter (m : Z) (k : nat) :
  0 <= m ->
  let n := Z.of_nat (S k) in
  Nat.iter (S k) shr_1 {| shr_m := m; shr_r := false; shr_s := false |} =
  {| shr_m := m / 2 ^ n;
     shr_r := Z.odd (m / 2 ^ (n - 1));
     shr_s := negb (m mod 2 ^ (n - 1) =? 0) |}.
Proof.
  intros Hm. induction k as [|k IH].
  - cbv zeta. change (Nat.iter 1 shr_1 ?x) with (shr_1 x).
    rewrite shr_1_nonneg by exact Hm.
    change (Z.of_nat 1) with 1. change (1 - 1) with 0.
    rewrite Z.pow_0_r, Z.pow_1_r, Z.div_1_r, Z.mod_1_r. reflexivity.
  - cbv zeta in *. rewrite Nat.iter_succ, IH.
    rewrite shr_1_nonneg
      by (cbn [shr_m]; apply Z.div_pos; [lia | apply Z.pow_pos_nonneg; lia]).
    cbn [shr_m shr_r shr_s].
    set (j := Z.of_nat (S k)).
    replace (Z.of_nat (S (S k))) with (j + 1) by (unfold j; lia).
    replace (j + 1 - 1) with j by lia.
    assert (Hj : 1 <= j) by (unfold j; lia).
    clearbody j. clear IH.
    f_equal.
    + rewrite Z.pow_add_r, Z.pow_1_r by lia.
      rewrite Z.div_div by (try apply Z.pow_pos_nonneg; lia). reflexivity.
    + replace j with ((j - 1) + 1) at 3 by lia.
      rewrite Z.pow_add_r, Z.pow_1_r by lia.
      assert (Hp : 0 < 2 ^ (j - 1)) by (apply Z.pow_pos_nonneg; lia).
      rewrite Z.rem_mul_r by lia.
      rewrite Zodd_mod.
      pose proof (Z.mod_pos_bound m (2 ^ (j - 1)) Hp).
      pose proof (Z.mod_pos_bound (m / 2 ^ (j - 1)) 2 ltac:(lia)).
      destruct (Z.eqb_spec ((m / 2 ^ (j - 1)) mod 2) 1) as [E|E];
        destruct (Z.eqb_spec (m mod 2 ^ (j - 1)) 0) as [F|F]; simpl;
        symmetry.
      * apply negb_true_iff, Z.eqb_neq. nia.
      * apply negb_true_iff, Z.eqb_neq. nia.
      * apply negb_false_iff, Z.eqb_eq. nia.
      * apply negb_true_iff, Z.eqb_neq. nia.
Qed.

Lemma rne_exact (k g : Z) : 0 < g -> rne (k * g) g = k.
Proof.
  intros Hg. unfold rne.
  rewrite Z.div_mul, Z.mod_mul by lia. simpl.
  destruct (Z.ltb_spec g 0); [lia|].
  destruct (Z.eqb_spec g 0); [lia|]. reflexivity.
Qed.

Lemma rne_mono (a b g : Z) : 0 < g -> a <= b -> rne a g <= rne b g.
Proof.
  intros Hg Hab. unfold rne.
  pose proof (Z.div_le_mono a b g Hg Hab) as Hq.
  pose proof (Z.div_mod a g ltac:(lia)) as Ea.
  pose proof (Z.div_mod b g ltac:(lia)) as Eb.
  pose proof (Z.mod_pos_bound a g Hg) as Ra.
  pose proof (Z.mod_pos_bound b g Hg) as Rb.
  destruct (Z.eq_dec (a / g) (b / g)) as [E|E].
  - rewrite <- E in *.
    destruct (Z.ltb_spec g (2 * (a mod g)));
      destruct (Z.ltb_spec g (2 * (b mod g)));
      destruct (Z.eqb_spec g (2 * (a mod g)));
      destruct (Z.eqb_spec g (2 * (b mod g)));
      destruct (Z.odd (a / g)); simpl; lia.
  - destruct ((g <? 2 * (a mod g)) || ((g =? 2 * (a mod g)) && Z.odd (a / g)));
      destruct ((g <? 2 * (b mod g)) || ((g =? 2 * (b mod g)) && Z.odd (b / g)));
      lia.
Qed.

Lemma rne_below (n k g : Z) : 0 < g -> n <= k * g -> rne n g * g <= k * g.
Proof.
  intros Hg H. pose proof (rne_mono n (k * g) g Hg H) as M.
  rewrite rne_exact in M by lia. nia.
Qed.

Lemma rne_above (n k g : Z) : 0 < g -> k * g <= n -> k * g <= rne n g * g.
Proof.
  intros Hg H. pose proof (rne_mono (k * g) n g Hg H) as M.
  rewrite rne_exact in M by lia. nia.
Qed.

Lemma rne_scale (n g c : Z) : 0 < g -> 0 < c -> rne (n * c) (g * c) = rne n g.
Proof.
  intros Hg Hc. unfold rne.
  rewrite Z.div_mul_cancel_r by lia.
  rewrite Z.mul_mod_distr_r by lia.
  replace (g * c <? 2 * (n mod g * c)) with (g <? 2 * (n mod g)).
  2:{ destruct (Z.ltb_spec g (2 * (n mod g)));
      destruct (Z.ltb_spec (g * c) (2 * (n mod g * c))); try reflexivity; nia. }
  replace (g * c =? 2 * (n mod g * c)) with (g =? 2 * (n mod g)).
  2:{ destruct (Z.eqb_spec g (2 * (n mod g)));
      destruct (Z.eqb_spec (g * c) (2 * (n mod g * c))); try reflexivity; nia. }
  reflexivity.
Qed.

(** The decision of [round_nearest_even] on the bits that [shr] leaves is
    [rne]. *)
Lemma round_shr (m : Z) (k : nat) :
  0 <= m ->
  let mrs := Nat.iter (S k) shr_1
               {| shr_m := m; shr_r := false; shr_s := false |} in
  round_nearest_even (shr_m mrs) (loc_of_shr_record mrs) =
  rne m (2 ^ Z.of_nat (S k)).
Proof.
  intros Hm mrs. subst mrs. rewrite shr_iter by exact Hm.
  set (n := Z.of_nat (S k)).
  assert (Hn : 1 <= n) by (unfold n; lia).
  clearbody n.
  assert (Hp : 0 < 2 ^ (n - 1)) by (apply Z.pow_pos_nonneg; lia).
  assert (E2 : 2 ^ n = 2 ^ (n - 1) * 2).
  { replace n with ((n - 1) + 1) at 1 by lia.
    rewrite Z.pow_add_r, Z.pow_1_r by lia. reflexivity. }
  unfold rne. cbn [shr_m shr_r shr_s].
  assert (Er : m mod 2 ^ n =
               m mod 2 ^ (n - 1) + 2 ^ (n - 1) * ((m / 2 ^ (n - 1)) mod 2))
    by (rewrite E2; apply Z.rem_mul_r; lia).
  pose proof (Z.mod_pos_bound m (2 ^ (n - 1)) Hp) as B1.
  pose proof (Z.mod_pos_bound (m / 2 ^ (n - 1)) 2 ltac:(lia)) as B2.
  rewrite Er, (Zodd_mod (m / 2 ^ (n - 1))), E2.
  set (a := m mod 2 ^ (n - 1)) in *.
  set (b := (m / 2 ^ (n - 1)) mod 2) in *.
  set (h := 2 ^ (n - 1)) in *.
  set (q := m / (h * 2)).
  clearbody a b h q.
  unfold loc_of_shr_record.
  destruct (Z.ltb_spec (h * 2) (2 * (a + h * b)));
    destruct (Z.eqb_spec (h * 2) (2 * (a + h * b)));
    destruct (Z.eqb_spec b 1); destruct (Z.eqb_spec a 0);
    try (exfalso; nia);
    cbn [orb andb negb round_nearest_even]; try reflexivity.
  rewrite <- Z.negb_odd. destruct (Z.odd q); reflexivity.
Qed.

(** ** Rounding to binary64 *)

Lemma fexp64 (x : Z) : fexp 53 1024 x = Z.max (x - 53) (-1074).
Proof. reflexivity. Qed.

Lemma rne_one (n : Z) : rne n 1 = n.
Proof.
  unfold rne. rewrite Z.div_1_r, Z.mod_1_r. reflexivity.
Qed.

(** [shr] on an exact mantissa, for any shift. *)
Lemma shr_exact (m e n : Z) :
  0 <= m ->
  let s := Z.max 0 n in
  let r := shr {| shr_m := m; shr_r := false; shr_s := false |} e n in
  snd r = e + s /\
  shr_m (fst r) = m / 2 ^ s /\
  round_nearest_even (shr_m (fst r)) (loc_of_shr_record (fst r)) =
    rne m (2 ^ s).
Proof.
  intros Hm s r. subst s r.
  destruct n as [|p|p]; cbn [shr fst snd shr_m].
  - change (Z.max 0 0) with 0. rewrite Z.pow_0_r, Z.div_1_r, rne_one.
    repeat split. lia.
  - replace (Z.max 0 (Zpos p)) with (Zpos p) by lia.
    rewrite iter_pos_nat.
    destruct (Pos2Nat.is_succ p) as [k Hk]. rewrite Hk.
    assert (Ep : Zpos p = Z.of_nat (S k)) by lia.
    rewrite Ep. repeat split.
    + rewrite shr_iter by exact Hm. reflexivity.
    + apply round_shr. exact Hm.
  - replace (Z.max 0 (Zneg p)) with 0 by lia.
    rewrite Z.pow_0_r, Z.div_1_r, rne_one. repeat split. lia.
Qed.

Lemma pow2_pos (k : Z) : 0 <= k -> 0 < 2 ^ k.
Proof. intros; apply Z.pow_pos_nonneg; lia. Qed.

Lemma pow2_split (a b : Z) : 0 <= b <= a -> 2 ^ a = 2 ^ (a - b) * 2 ^ b.
Proof.
  intros H. rewrite <- Z.pow_add_r by lia. f_equal. lia.
Qed.

Lemma rne_le_pow (m d s : Z) :
  0 <= s -> 0 <= d - s -> m < 2 ^ d -> rne m (2 ^ s) <= 2 ^ (d - s).
Proof.
  intros Hs Hd Hm.
  pose proof (pow2_pos s Hs) as Ps.
  assert (H : m <= 2 ^ (d - s) * 2 ^ s).
  { rewrite <- Z.pow_add_r by lia. replace (d - s + s) with d by lia. lia. }
  pose proof (rne_below m (2 ^ (d - s)) (2 ^ s) Ps H). nia.
Qed.

Lemma rne_nonneg (m g : Z) : 0 < g -> 0 <= m -> 0 <= rne m g.
Proof.
  intros Hg Hm. pose proof (rne_mono 0 m g Hg Hm) as H.
  change 0 with (0 * g) in H at 1. rewrite rne_exact in H by lia. exact H.
Qed.

Theorem binary_round_aux_value (pm : positive) (e b : Z) :
  b <= -1074 -> b <= e <= 970 -> Zpos (digits2_pos pm) + e <= 1023 ->
  let x := binary_round_aux 53 1024 false (Zpos pm) e loc_Exact in
  nonneg_finite b x /\
  scaled b x = round64 b (Zpos pm * 2 ^ (e - b)).
Proof.
  intros Hb [He He'] Hd x. subst x.
  set (m := Zpos pm). set (d := Zpos (digits2_pos pm)) in *.
  assert (Hm : 0 < m) by (unfold m; lia).
  destruct (digits2_pos_bounds pm) as [Dlo Dhi]. fold m d in Dlo, Dhi.
  assert (Hd0 : 0 < d) by (unfold d; lia).
  unfold binary_round_aux, shr_fexp. cbn [shr_record_of_loc].
  rewrite !fexp64.
  change (Zdigits2 m) with d.
  set (n1 := Z.max (d + e - 53) (-1074) - e).
  destruct (shr_exact m e n1 ltac:(lia)) as (E1 & M1 & R1).
  destruct (shr {| shr_m := m; shr_r := false; shr_s := false |} e n1)
    as [mrs1 e1].
  cbn [fst snd] in E1, M1, R1. rewrite R1. subst e1. clear M1 R1 mrs1.
  rewrite fexp64.
  set (s1 := Z.max 0 n1).
  assert (Hs1 : 0 <= s1) by (unfold s1; lia).
  set (m1 := rne m (2 ^ s1)).
  assert (Hm1 : 0 <= m1) by (apply rne_nonneg; [apply pow2_pos|]; lia).
  assert (Hm1' : m1 <= 2 ^ 53).
  { destruct (Z_le_gt_dec (d - s1) 53) as [L|L].
    - assert (0 <= d - s1 \/ d - s1 < 0) as [P|P] by lia.
      + pose proof (rne_le_pow m d s1 Hs1 P Dhi).
        assert (2 ^ (d - s1) <= 2 ^ 53) by (apply Z.pow_le_mono_r; lia).
        unfold m1. lia.
      + assert (H : m <= 1 * 2 ^ s1).
        { assert (2 ^ d <= 2 ^ s1) by (apply Z.pow_le_mono_r; lia). lia. }
        pose proof (rne_below m 1 (2 ^ s1) (pow2_pos s1 Hs1) H).
        pose proof (pow2_pos s1 Hs1). unfold m1.
        assert (1 <= 2 ^ 53) by (pose proof (pow2_pos 53 ltac:(lia)); lia). nia.
    - exfalso. unfold s1, n1 in L. lia. }
  set (n2 := Z.max (Zdigits2 m1 + (e + s1) - 53) (-1074) - (e + s1)).
  destruct (shr_exact m1 (e + s1) n2 Hm1) as (E2 & M2 & _).
  destruct (shr {| shr_m := m1; shr_r := false; shr_s := false |} (e + s1) n2)
    as [mrs2 e2].
  cbn [fst snd] in E2, M2. subst e2.
  set (s2 := Z.max 0 n2) in *.
  (* the second shift is by at most one bit, and loses nothing *)
  assert (Hdiv : m1 = m1 / 2 ^ s2 * 2 ^ s2 /\ 0 <= s2 <= 1).
  { destruct (Z.eq_dec m1 0) as [Z0|NZ].
    - rewrite Z0. rewrite Z.div_0_l by (pose proof (pow2_pos s2); lia).
      split; [reflexivity|]. unfold s2, n2. rewrite Z0. simpl Zdigits2.
      unfold s1, n1. lia.
    - destruct (digits_bounds m1 ltac:(lia)) as (D1 & L1 & U1).
      assert (Zdigits2 m1 <= 54).
      { destruct (Z_le_gt_dec (Zdigits2 m1) 54) as [L|L]; [exact L|].
        assert (2 ^ 54 <= 2 ^ (Zdigits2 m1 - 1))
          by (apply Z.pow_le_mono_r; lia).
        assert (2 ^ 53 < 2 ^ 54) by (apply Z.pow_lt_mono_r; lia). lia. }
      destruct (Z.eq_dec (Zdigits2 m1) 54) as [E54|N54].
      + rewrite E54 in L1. change (54 - 1) with 53 in L1.
        assert (m1 = 2 ^ 53) by lia.
        assert (s2 = 1) by (unfold s2, n2; rewrite E54; unfold s1, n1; lia).
        split; [|lia]. rewrite H1, H0. reflexivity.
      + assert (s2 = 0) by (unfold s2, n2, s1, n1; lia).
        split; [|lia]. rewrite H0, Z.pow_0_r, Z.div_1_r. lia. }
  destruct Hdiv as [Hdiv Hs2].
  set (m2 := shr_m mrs2) in *. clearbody m2. subst m2.
  (* the value that is rounded to *)
  assert (Hval : m1 * 2 ^ (e + s1 - b) = round64 b (m * 2 ^ (e - b))).
  { unfold round64.
    rewrite digits_shift by lia. change (Zdigits2 m) with d.
    set (s := Z.max (d + (e - b) - 53) (-1074 - b)).
    assert (Hs : 0 <= s) by (unfold s; lia).
    destruct (Z_le_gt_dec (e - b) s) as [L|L].
    - assert (Es : s = s1 + (e - b)) by (unfold s, s1, n1; lia).
      rewrite Es at 1 2. rewrite Z.pow_add_r by lia.
      rewrite rne_scale by (apply pow2_pos; lia).
      fold m1. replace (e + s1 - b) with (s1 + (e - b)) by lia.
      rewrite Z.pow_add_r by lia. reflexivity.
    - assert (Es1 : s1 = 0) by (unfold s, s1, n1 in *; lia).
      unfold m1. rewrite Es1, Z.pow_0_r, rne_one, Z.add_0_r.
      rewrite (pow2_split (e - b) s) by lia.
      rewrite Z.mul_assoc, rne_exact by (apply pow2_pos; lia).
      reflexivity. }
  rewrite <- Hval.
  assert (Hpow : 0 < 2 ^ s2) by (apply pow2_pos; lia).
  destruct (m1 / 2 ^ s2) as [|p2|p2] eqn:Eq2.
  - split; [exact I|]. cbn [scaled]. rewrite Hdiv. reflexivity.
  - assert (Hle : (e + s1 + s2 <=? 1024 - 53) = true).
    { apply Z.leb_le. unfold s1, n1. lia. }
    rewrite Hle. split.
    + cbn [nonneg_finite]. lia.
    + cbn [scaled].
      transitivity (Zpos p2 * 2 ^ s2 * 2 ^ (e + s1 - b));
        [|now rewrite <- Hdiv].
      replace (e + s1 + s2 - b) with (s2 + (e + s1 - b)) by lia.
      rewrite Z.pow_add_r by lia. ring.
  - exfalso.
    assert (0 <= m1 / 2 ^ s2) by (apply Z.div_pos; lia). lia.
Qed.

(** ** Monotonicity of rounding *)

Lemma round64_mono (b x y : Z) :
  b <= -1074 -> 0 < x -> x <= y -> round64 b x <= round64 b y.
Proof.
  intros Hb Hx Hxy. unfold round64.
  destruct (digits_bounds x Hx) as (Dx & Xlo & Xhi).
  destruct (digits_bounds y ltac:(lia)) as (Dy & Ylo & Yhi).
  pose proof (digits_mono x y Hx Hxy) as Hd.
  set (dx := Zdigits2 x) in *. set (dy := Zdigits2 y) in *.
  set (sx := Z.max (dx - 53) (-1074 - b)).
  set (sy := Z.max (dy - 53) (-1074 - b)).
  assert (Hsx : 0 <= sx) by (unfold sx; lia).
  assert (Hsy : 0 <= sy) by (unfold sy; lia).
  pose proof (pow2_pos sx Hsx) as Px.
  pose proof (pow2_pos sy Hsy) as Py.
  destruct (Z.eq_dec sx sy) as [E|N].
  - rewrite <- E.
    pose proof (rne_mono x y (2 ^ sx) Px Hxy). nia.
  - assert (Hlt : sx < sy) by (unfold sx, sy in *; lia).
    assert (Esy : sy = dy - 53) by (unfold sx, sy in *; lia).
    assert (Hdd : dx <= dy - 1) by (unfold sx, sy in *; lia).
    assert (Hg : 2 ^ dx <= 2 ^ (dy - 1)) by (apply Z.pow_le_mono_r; lia).
    transitivity (2 ^ (dy - 1)).
    + rewrite (pow2_split (dy - 1) sx) by lia.
      apply rne_below; [exact Px|].
      rewrite <- pow2_split by lia. lia.
    + rewrite (pow2_split (dy - 1) sy) by lia.
      apply rne_above; [exact Py|].
      rewrite <- pow2_split by lia. lia.
Qed.

(** Rounding does not cross a number that is on the grid. *)
Lemma round64_below (b x k t : Z) :
  b <= -1074 -> 0 < x -> x <= k * 2 ^ t ->
  Z.max (Zdigits2 x - 53) (-1074 - b) <= t ->
  round64 b x <= k * 2 ^ t.
Proof.
  intros Hb Hx Hk Ht. unfold round64.
  set (s := Z.max (Zdigits2 x - 53) (-1074 - b)) in *.
  assert (Hs : 0 <= s) by (unfold s; lia).
  rewrite (pow2_split t s) in * by lia. rewrite Z.mul_assoc in *.
  apply rne_below; [apply pow2_pos; lia | exact Hk].
Qed.

Lemma round64_above (b x k t : Z) :
  b <= -1074 -> 0 < x -> k * 2 ^ t <= x ->
  Z.max (Zdigits2 x - 53) (-1074 - b) <= t ->
  k * 2 ^ t <= round64 b x.
Proof.
  intros Hb Hx Hk Ht. unfold round64.
  set (s := Z.max (Zdigits2 x - 53) (-1074 - b)) in *.
  assert (Hs : 0 <= s) by (unfold s; lia).
  rewrite (pow2_split t s) in * by lia. rewrite Z.mul_assoc in *.
  apply rne_above; [apply pow2_pos; lia | exact Hk].
Qed.

Lemma to_ull_scaled (b : Z) (x : double) :
  b <= 0 -> nonneg_finite b x ->
  Double.to_ull x = scaled b x / 2 ^ (- b).
Proof.
  intros Hb Hx.
  destruct x as [[|]|[|]| |[|] m e]; simpl in Hx; try contradiction;
    [reflexivity|].
  cbn [Double.to_ull scaled].
  assert (Pb : 0 < 2 ^ (- b)) by (apply pow2_pos; lia).
  destruct (Z_le_gt_dec 0 e) as [L|L].
  - rewrite Z.shiftl_mul_pow2 by lia.
    replace (e - b) with (e + - b) by lia.
    rewrite Z.pow_add_r, Z.mul_assoc, Z.div_mul by lia. reflexivity.
  - rewrite Z.shiftl_div_pow2 by lia.
    rewrite (pow2_split (- b) (e - b)) by lia.
    replace (- b - (e - b)) with (- e) by lia.
    rewrite Z.div_mul_cancel_r
      by (pose proof (pow2_pos (- e)); pose proof (pow2_pos (e - b)); lia).
    reflexivity.
Qed.

(** A positive finite [double]: its mantissa has at most 53 bits, exactly
    53 above the smallest exponent. *)
Lemma valid_finite (m : positive) (e : Z) :
  Double.valid (S754_finite false m e) = true ->
  -1074 <= e <= 971 /\
  Zpos (digits2_pos m) <= 53 /\
  (-1074 < e -> Zpos (digits2_pos m) = 53).
Proof.
  unfold Double.valid, valid_binary, bounded, canonical_mantissa.
  rewrite fexp64. intros H. apply andb_true_iff in H. destruct H as [C B].
  apply Z.eqb_eq in C. apply Z.leb_le in B.
  change (Double.emax - Double.prec) with 971 in B. lia.
Qed.

Lemma leb_exact_scaled (mx my : positive) (ex ey : Z) :
  Double.valid (S754_finite false mx ex) = true ->
  Double.valid (S754_finite false my ey) = true ->
  Double.leb (S754_finite false mx ex) (S754_finite false my ey) = true ->
  Zpos mx * 2 ^ (ex + 1074) <= Zpos my * 2 ^ (ey + 1074).
Proof.
  intros Vx Vy L.
  destruct (valid_finite mx ex Vx) as (Ex & Dx & _).
  destruct (valid_finite my ey Vy) as (Ey & _ & Ny).
  unfold Double.leb, SFleb, SFcompare in L.
  destruct (Z.compare_spec ex ey) as [E|E|E].
  - subst ey.
    assert (Zpos mx <= Zpos my).
    { change (Zpos mx <= Zpos my) with (mx <= my)%positive.
      unfold Pos.le. unfold Pos.compare. intros G. rewrite G in L.
      discriminate L. }
    pose proof (pow2_pos (ex + 1074)). nia.
  - destruct (digits2_pos_bounds mx) as [_ Hx].
    destruct (digits2_pos_bounds my) as [Hy _].
    rewrite (Ny ltac:(lia)) in Hy. change (53 - 1) with 52 in Hy.
    assert (Hx' : Zpos mx < 2 ^ 53).
    { assert (2 ^ Zpos (digits2_pos mx) <= 2 ^ 53)
        by (apply Z.pow_le_mono_r; lia). lia. }
    assert (Hp : 2 * 2 ^ (ex + 1074) <= 2 ^ (ey + 1074)).
    { replace (ey + 1074) with (1 + (ex + 1074) + (ey - ex - 1)) by lia.
      rewrite (Z.pow_add_r 2 (1 + (ex + 1074)) (ey - ex - 1)) by lia.
      rewrite (Z.pow_add_r 2 1 (ex + 1074)), Z.pow_1_r by lia.
      pose proof (pow2_pos (ey - ex - 1)). pose proof (pow2_pos (ex + 1074)).
      nia. }
    change (2 ^ 53) with (2 * 2 ^ 52) in Hx'.
    pose proof (pow2_pos (ex + 1074)).
    assert (0 < 2 ^ 52) by (apply pow2_pos; lia).
    nia.
  - discriminate.
Qed.

(** ** The scaled tick of a progress value *)

Lemma in_unit_interval_cases (p : double) :
  in_unit_interval p ->
  (exists s, p = S754_zero s) \/
  (exists m e, p = S754_finite false m e /\
               Double.valid p = true /\ e <= -52).
Proof.
  intros (V & L0 & L1).
  destruct p as [s|[|]| |[|] m e]; try discriminate.
  - left. now exists s.
  - right. exists m, e. split; [reflexivity|]. split; [exact V|].
    unfold Double.leb, SFleb, SFcompare, Double.one in L1.
    destruct (Z.compare_spec e (-52)); try lia; discriminate.
Qed.

Lemma product_digits (m : positive) :
  Zpos (digits2_pos (m * 5497558138880000)) <= Zpos (digits2_pos m) + 53.
Proof.
  destruct (digits2_pos_bounds (m * 5497558138880000)) as [Lo _].
  destruct (digits2_pos_bounds m) as [_ Hi].
  rewrite Pos2Z.inj_mul in Lo.
  set (D := Zpos (digits2_pos (m * 5497558138880000))) in *.
  set (d := Zpos (digits2_pos m)) in *.
  assert (Hd : 0 < d) by (unfold d; lia).
  destruct (Z_le_gt_dec D (d + 53)) as [L|L]; [exact L|].
  assert (2 ^ (d + 53) <= 2 ^ (D - 1)) by (apply Z.pow_le_mono_r; lia).
  rewrite Z.pow_add_r in H by lia.
  assert (5497558138880000 < 2 ^ 53) by reflexivity.
  pose proof (pow2_pos d ltac:(lia)). nia.
Qed.

(** The tick of a positive progress value: the exact product, rounded to
    binary64, then truncated. *)
Lemma scaled_tick_finite (m : positive) (e : Z) :
  Double.valid (S754_finite false m e) = true -> e <= -52 ->
  scaled_tick (S754_finite false m e) =
  round64 (-1113) (exact_scaled (S754_finite false m e)) / 2 ^ 1113.
Proof.
  intros V He.
  destruct (valid_finite m e V) as (Ee & Dm & _).
  unfold scaled_tick, Double.mul.
  change (Double.of_int 10000) with (S754_finite false 5497558138880000 (-39)).
  cbn [SFmul xorb].
  pose proof (product_digits m) as Hd.
  destruct (binary_round_aux_value (m * 5497558138880000) (e + -39) (-1113))
    as [F S]; try lia.
  rewrite (to_ull_scaled (-1113)) by (try exact F; lia).
  change (- -1113) with 1113.
  fold Double.prec Double.emax in S |- *.
  rewrite S. cbn [exact_scaled].
  rewrite Pos2Z.inj_mul.
  replace (e + -39 - -1113) with (e + 1074) by lia. reflexivity.
Qed.

Lemma scaled_tick_zero (s : bool) : scaled_tick (S754_zero s) = 0.
Proof. destruct s; reflexivity. Qed.

Lemma exact_scaled_pos (m : positive) (e : Z) :
  -1074 <= e -> 0 < exact_scaled (S754_finite false m e).
Proof.
  intros He. cbn [exact_scaled].
  pose proof (pow2_pos (e + 1074) ltac:(lia)). nia.
Qed.

Lemma to_ull_nonneg (x : double) : 0 <= Double.to_ull x.
Proof.
  destruct x as [s|s| |[|] m e]; cbn [Double.to_ull]; try lia.
  apply Z.shiftl_nonneg. lia.
Qed.

(** The exact product of a progress value is below [2 ^ 1128] units, so
    that its rounding grid is no coarser than [2 ^ 1113] units, which is
    the integers. *)
Lemma exact_scaled_grid (m : positive) (e : Z) :
  Double.valid (S754_finite false m e) = true -> e <= -52 ->
  Z.max (Zdigits2 (exact_scaled (S754_finite false m e)) - 53) (-1074 - -1113)
  <= 1113.
Proof.
  intros V He.
  destruct (valid_finite m e V) as (Ee & Dm & _).
  pose proof (exact_scaled_pos m e ltac:(lia)) as P.
  destruct (digits_bounds _ P) as (_ & Lo & _).
  cbn [exact_scaled] in *.
  set (D := Zdigits2 (Zpos m * 5497558138880000 * 2 ^ (e + 1074))) in *.
  destruct (Z_le_gt_dec D 1166) as [L|L]; [lia|].
  exfalso.
  assert (H : 2 ^ 1166 <= 2 ^ (D - 1)) by (apply Z.pow_le_mono_r; lia).
  destruct (digits2_pos_bounds m) as [_ Hm].
  assert (Zpos m < 2 ^ 53).
  { assert (2 ^ Zpos (digits2_pos m) <= 2 ^ 53)
      by (apply Z.pow_le_mono_r; lia). lia. }
  assert (2 ^ (e + 1074) <= 2 ^ 1022) by (apply Z.pow_le_mono_r; lia).
  assert (5497558138880000 < 2 ^ 53) by reflexivity.
  change (2 ^ 1166) with (2 ^ 53 * 2 ^ 53 * 2 ^ 1022 * 2 ^ 38) in H.
  pose proof (pow2_pos (e + 1074) ltac:(lia)).
  assert (0 < 2 ^ 53) by reflexivity.
  assert (1 <= 2 ^ 38) by (vm_compute; discriminate).
  assert (Zpos m * 5497558138880000 * 2 ^ (e + 1074)
          < 2 ^ 53 * 2 ^ 53 * 2 ^ 1022).
  { assert (Zpos m * 5497558138880000 < 2 ^ 53 * 2 ^ 53) by nia.
    assert (0 < 2 ^ 1022) by (apply pow2_pos; lia). nia. }
  assert (0 < 2 ^ 53 * 2 ^ 53 * 2 ^ 1022) by lia. nia.
Qed.

(** A tick never lies beyond an integer that the exact product does not
    reach. *)
Lemma scaled_tick_below (m : positive) (e k : Z) :
  Double.valid (S754_finite false m e) = true -> e <= -52 ->
  exact_scaled (S754_finite false m e) <= k * 2 ^ 1113 ->
  scaled_tick (S754_finite false m e) <= k.
Proof.
  intros V He Hk.
  destruct (valid_finite m e V) as (Ee & _).
  rewrite scaled_tick_finite by assumption.
  pose proof (exact_scaled_pos m e ltac:(lia)) as P.
  pose proof (round64_below (-1113) _ k 1113 ltac:(lia) P Hk
                (exact_scaled_grid m e V He)) as R.
  assert (Pp : 0 < 2 ^ 1113) by (apply pow2_pos; lia).
  apply Z.div_le_upper_bound; lia.
Qed.

Lemma scaled_tick_above (m : positive) (e k : Z) :
  Double.valid (S754_finite false m e) = true -> e <= -52 ->
  k * 2 ^ 1113 <= exact_scaled (S754_finite false m e) ->
  k <= scaled_tick (S754_finite false m e).
Proof.
  intros V He Hk.
  destruct (valid_finite m e V) as (Ee & _).
  rewrite scaled_tick_finite by assumption.
  pose proof (exact_scaled_pos m e ltac:(lia)) as P.
  pose proof (round64_above (-1113) _ k 1113 ltac:(lia) P Hk
                (exact_scaled_grid m e V He)) as R.
  assert (Pp : 0 < 2 ^ 1113) by (apply pow2_pos; lia).
  apply Z.div_le_lower_bound; lia.
Qed.

Lemma exact_scaled_units (m : positive) (e : Z) :
  -1074 <= e <= -52 ->
  exact_scaled (S754_finite false m e) * 2 ^ (- e) =
  Zpos m * 10000 * 2 ^ 1113.
Proof.
  intros He. cbn [exact_scaled].
  change 5497558138880000 with (10000 * 2 ^ 39).
  replace 1113 with (39 + ((e + 1074) + - e)) by lia.
  rewrite (Z.pow_add_r 2 39 (e + 1074 + - e)) by lia.
  rewrite (Z.pow_add_r 2 (e + 1074) (- e)) by lia. ring.
Qed.

(** The tick is less than one away from the exact product. *)
Lemma scaled_tick_error (m : positive) (e : Z) :
  Double.valid (S754_finite false m e) = true -> e <= -52 ->
  Z.abs (scaled_tick (S754_finite false m e) * 2 ^ (- e) - Zpos m * 10000)
  < 2 ^ (- e).
Proof.
  intros V He.
  destruct (valid_finite m e V) as (Ee & _).
  pose proof (pow2_pos (- e) ltac:(lia)) as Pe.
  assert (Pp : 0 < 2 ^ 1113) by (apply pow2_pos; lia).
  pose proof (exact_scaled_units m e ltac:(lia)) as U.
  set (x := Zpos m * 10000) in *.
  pose proof (Z.div_mod x (2 ^ (- e)) ltac:(lia)) as Dx.
  pose proof (Z.mod_pos_bound x (2 ^ (- e)) Pe) as Mx.
  set (k := x / 2 ^ (- e)) in *.
  assert (Lo : k <= scaled_tick (S754_finite false m e)).
  { apply scaled_tick_above; [assumption..|]. nia. }
  assert (Hi : scaled_tick (S754_finite false m e) <=
               (if x mod 2 ^ (- e) =? 0 then k else k + 1)).
  { apply scaled_tick_below; [assumption..|].
    destruct (Z.eqb_spec (x mod 2 ^ (- e)) 0); nia. }
  destruct (Z.eqb_spec (x mod 2 ^ (- e)) 0); nia.
Qed.

Lemma scaled_tick_mono (p q : double) :
  in_unit_interval p -> in_unit_interval q -> Double.leb p q = true ->
  scaled_tick p <= scaled_tick q.
Proof.
  intros Hp Hq L.
  destruct (in_unit_interval_cases p Hp)
    as [[s ->]|(m & e & -> & V & He)].
  { rewrite scaled_tick_zero. apply to_ull_nonneg. }
  destruct (in_unit_interval_cases q Hq)
    as [[s ->]|(m' & e' & -> & V' & He')].
  { discriminate L. }
  rewrite !scaled_tick_finite by assumption.
  destruct (valid_finite m e V) as (Ee & _).
  apply Z.div_le_mono; [apply pow2_pos; lia|].
  apply round64_mono; [lia | apply exact_scaled_pos; lia |].
  pose proof (leb_exact_scaled m m' e e' V V' L). cbn [exact_scaled]. nia.
Qed.

Lemma scaled_tick_max (p : double) :
  in_unit_interval p -> scaled_tick p <= 10000.
Proof.
  intros Hp.
  destruct (in_unit_interval_cases p Hp)
    as [[s ->]|(m & e & -> & V & He)].
  { rewrite scaled_tick_zero. lia. }
  apply scaled_tick_below; [assumption..|].
  destruct Hp as (_ & _ & L1).
  pose proof (leb_exact_scaled m 4503599627370496 e (-52) V eq_refl L1) as H.
  cbn [exact_scaled].
  change (-52 + 1074) with 1022 in H.
  change (10000 * 2 ^ 1113)
    with (4503599627370496 * 2 ^ 1022 * 5497558138880000).
  nia.
Qed.

(** C6, as stated, fails: for the progress value 3/64 the product is
    468.75 exactly, the nearest integer is 469, and the numerator handed to
    [Poll] is 468. *)
Lemma tick_is_truncated_not_rounded :
  in_unit_interval three_64ths /\
  Double.mul three_64ths (Double.of_int 10000) =
    S754_finite false 8246337208320000 (-44) /\
  8246337208320000 = 1875 * 2 ^ 42 /\
  calls_of (SetUploadProgress three_64ths no_answers (in_sync (Some 1%nat))) =
    [Poll 1%nat 468 10000 PR_Continue] /\
  rounded_tick three_64ths = 469 /\
  ~ tick_is_rounded.
Proof.
  assert (U : in_unit_interval three_64ths) by (repeat split).
  repeat split.
  intros H. specialize (H three_64ths U). vm_compute in H. discriminate H.
Qed.

(** C6, amended: for every progress value p in [0,1] forwarded to an
    existing progress dialog, the numerator handed to [Poll] is the
    binary64 product p * 10000 truncated toward zero, with denominator
    10000; it lies between 0 and 10000 and is less than one away from the
    exact product; and ticks are monotonically non-decreasing: a progress
    value that is not smaller gives a tick that is not smaller, hence a
    run of non-decreasing progress values gives non-decreasing ticks. *)
Theorem ticks_truncated_and_monotone :
  forall p,
    in_unit_interval p ->
    0 <= scaled_tick p <= 10000 /\
    (forall m e, p = S754_finite false m e ->
       Z.abs (scaled_tick p * 2 ^ (- e) - Zpos m * 10000) < 2 ^ (- e)) /\
    (forall this h env,
       mProgressDialog this = Some h ->
       exists later,
         calls_of (SetUploadProgress p env this) =
           Poll h (Double.to_ull (Double.mul p (Double.of_int 10000))) 10000
             (pollResult env) :: later) /\
    (forall q, in_unit_interval q -> Double.leb p q = true ->
               scaled_tick p <= scaled_tick q) /\
    (forall run,
       Forall in_unit_interval run ->
       StronglySorted (fun a b => Double.leb a b = true) run ->
       StronglySorted Z.le (map scaled_tick run)).
Proof.
  intros p Hp. repeat split.
  - apply to_ull_nonneg.
  - now apply scaled_tick_max.
  - intros m e ->.
    destruct (in_unit_interval_cases _ Hp)
      as [[s E]|(m' & e' & E & V & He)]; [discriminate E|].
    injection E as <- <-. now apply scaled_tick_error.
  - intros this h env Hd. rewrite SetUploadProgress_calls, Hd.
    eexists. reflexivity.
  - intros q Hq L. now apply scaled_tick_mono.
  - intros run Hall Hs. induction Hs as [|a run Hs IH Ha]; simpl.
    + constructor.
    + inversion Hall as [|? ? Pa Prun]; subst.
      constructor; [now apply IH|].
      rewrite Forall_forall in *. intros t Ht.
      apply in_map_iff in Ht. destruct Ht as (b & <- & Hb).
      apply scaled_tick_mono; auto.
Qed.

Lemma ticks_truncated_and_monotone_witness :
  0 <= scaled_tick three_64ths <= 10000 /\
  (forall q, in_unit_interval q -> Double.leb three_64ths q = true ->
             scaled_tick three_64ths <= scaled_tick q).
Proof.
  destruct (ticks_truncated_and_monotone three_64ths
              (conj eq_refl (conj eq_refl eq_refl)))
    as (H1 & _ & _ & H4 & _).
  split; [exact H1 | exact H4].
Defined.

(** ** The progress dialog is owned and released *)

Lemma created_app xs ys : created (xs ++ ys) = (created xs + created ys)%nat.
Proof. unfold created. now rewrite filter_app, length_app. Qed.

Lemma destroyed_app xs ys :
  destroyed (xs ++ ys) = (destroyed xs + destroyed ys)%nat.
Proof. unfold destroyed. now rewrite filter_app, length_app. Qed.

Lemma dialog_protocol_app owned xs ys :
  dialog_protocol owned (xs ++ ys) =
  match dialog_protocol owned xs with
  | Some owned' => dialog_protocol owned' ys
  | None => None
  end.
Proof.
  revert owned. induction xs as [|c xs IH]; intros owned; [reflexivity|].
  destruct c; cbn [app dialog_protocol]; try apply IH;
    destruct owned as [h'|]; try reflexivity; try apply IH;
    destruct (Nat.eqb _ h'); try reflexivity; apply IH.
Qed.

Lemma manages_dialogs_bind {A B} (m : M A) (f : A -> M B) :
  manages_dialogs m -> (forall a, manages_dialogs (f a)) ->
  manages_dialogs (bind m f).
Proof.
  intros Hm Hf this.
  rewrite calls_of_bind, object_of_bind, trace_of_bind.
  rewrite created_app, destroyed_app, dialog_protocol_app.
  destruct (Hm this) as (B1 & P1 & O1).
  destruct (Hf (result_of (m this)) (object_of (m this))) as (B2 & P2 & O2).
  rewrite P1, P2.
  split; [lia | split; [reflexivity | apply Forall_app; now split]].
Qed.

Lemma manages_dialogs_ret {A} (a : A) : manages_dialogs (ret a).
Proof. intros this. repeat split. constructor. Qed.

Lemma SetUploadProgress_manages progress env :
  manages_dialogs (SetUploadProgress progress env).
Proof.
  intros this.
  unfold SetUploadProgress, dialogs, calls_of, object_of, trace_of.
  destruct this as [p d c i n]; destruct d as [h|]; simpl.
  - destruct (pollResult env); simpl; rewrite ?Nat.eqb_refl;
      repeat split; repeat (constructor; try reflexivity).
  - repeat split. constructor.
Qed.

Lemma recover_trace error env this :
  Forall respects_ownership (trace_of (recover error env this)) /\
  created (calls_of (recover error env this)) = 0%nat /\
  destroyed (calls_of (recover error env this)) = 0%nat /\
  forall owned,
    dialog_protocol owned (calls_of (recover error env this)) = Some owned.
Proof.
  unfold recover, calls_of, trace_of.
  destruct (Type_ error);
    try destruct (projectLimitChoice env);
    try destruct (versionConflictChoice env);
    try destruct (notCloudProjectChoice env);
    try destruct (resaveLocallyResult env); simpl;
    repeat split; repeat (constructor; try exact I).
Qed.

Lemma OnCloudStatusChanged_manages message env :
  manages_dialogs (OnCloudStatusChanged message env).
Proof.
  unfold OnCloudStatusChanged. apply manages_dialogs_bind.
  - intros this.
    unfold update_status, SetUploadProgress, dialogs, calls_of, object_of,
      trace_of.
    destruct this as [p d c i n].
    destruct n, (IsSyncing message), d as [h|], (savesCount env =? 0),
      (pollResult env); simpl; rewrite ?Nat.eqb_refl;
      repeat split; repeat (constructor; try reflexivity).
  - intros _ this.
    destruct (Status message), (Error message) as [error|];
      try apply manages_dialogs_ret.
    rewrite calls_of_bind, object_of_bind, trace_of_bind, recover_object.
    destruct (recover_trace error env this) as (T & C & D & P).
    rewrite created_app, destroyed_app, dialog_protocol_app, C, D, P.
    split; [|split].
    + unfold created, destroyed, calls_of, trace_of, object_of, call.
      simpl. lia.
    + reflexivity.
    + apply Forall_app. split; [exact T|]. repeat constructor.
Qed.

Lemma dispatch_manages p : manages_dialogs (dispatch p).
Proof.
  destruct p; simpl.
  - apply OnCloudStatusChanged_manages.
  - apply manages_dialogs_bind; [apply SetUploadProgress_manages|].
    intros; apply manages_dialogs_ret.
Qed.

Lemma drain_manages ps : manages_dialogs (drain ps).
Proof.
  induction ps as [|p ps IH]; simpl.
  - apply manages_dialogs_ret.
  - apply manages_dialogs_bind; [apply dispatch_manages | intros; apply IH].
Qed.

Lemma loop_body_manages turn : manages_dialogs (loop_body turn).
Proof.
  intros this. unfold loop_body.
  destruct this as [p d c i n]. destruct d as [h|].
  - pose proof (drain_manages (pending turn)
                  {| mProgress := p; mProgressDialog := Some h;
                     mClosingCancelled := c; mInSync := i;
                     mNeedsFirstSaveDialog := n |}) as (B & P & O).
    unfold calls_of, object_of, trace_of, bind, get, ret, call in *.
    simpl in *.
    destruct (drain (pending turn) _) as [[u this'] t]. simpl in *.
    split; [exact B | split; [exact P | constructor; [exact I | exact O]]].
  - pose proof (drain_manages (pending turn)
                  {| mProgress := p; mProgressDialog := Some (fresh turn);
                     mClosingCancelled := c; mInSync := i;
                     mNeedsFirstSaveDialog := n |}) as (B & P & O).
    unfold calls_of, object_of, trace_of, bind, get, ret, call,
      set_mProgressDialog, modify in *.
    simpl in *.
    destruct (drain (pending turn) _) as [[u this'] t]. simpl in *.
    split; [|split].
    + unfold created, destroyed in *. simpl. lia.
    + exact P.
    + constructor; [reflexivity|]. constructor; [exact I | exact O].
Qed.

Lemma AllowClosing_manages script : manages_dialogs (AllowClosing script).
Proof.
  induction script as [|turn rest IH]; intros this;
    rewrite AllowClosing_unfold; destruct (waiting this);
    try (repeat split; constructor).
  apply manages_dialogs_bind; [apply loop_body_manages | intros; apply IH].
Qed.

Lemma perform_manages op : manages_dialogs (perform op).
Proof.
  destruct op; simpl.
  - apply manages_dialogs_bind; [apply SetUploadProgress_manages|].
    intros; apply manages_dialogs_ret.
  - apply OnCloudStatusChanged_manages.
  - apply manages_dialogs_bind; [apply AllowClosing_manages|].
    intros; apply manages_dialogs_ret.
Qed.

Lemma perform_all_manages ops : manages_dialogs (perform_all ops).
Proof.
  induction ops as [|op ops IH]; simpl.
  - apply manages_dialogs_ret.
  - apply manages_dialogs_bind; [apply perform_manages | intros; apply IH].
Qed.

(** X1: over every sequence of operations, the dialogs the object made and
    the dialogs it destroyed balance with the dialog it owns: none is
    leaked, none is destroyed twice, and it owns at most one. *)
Theorem dialogs_balance :
  forall ops this,
    let r := perform_all ops this in
    (dialogs this + created (calls_of r) =
     dialogs (object_of r) + destroyed (calls_of r))%nat /\
    (dialogs (object_of r) <= 1)%nat.
Proof.
  intros ops this r. split.
  - apply perform_all_manages.
  - unfold dialogs. destruct (mProgressDialog (object_of r)); lia.
Qed.

(** X2: over every sequence of operations, the calls on progress dialogs
    follow the ownership protocol from the dialog the object owns at the
    start to the one it owns at the end: a dialog is made only when none is
    owned, only the owned dialog is polled, and the dialog destroyed is the
    owned one, which is not polled or destroyed again.  At the moment of
    each call the member agrees with it: empty when a dialog is made, the
    polled dialog when one is polled, and already empty when the dialog is
    destroyed. *)
Theorem dialog_calls_respect_ownership :
  forall ops this,
    dialog_protocol (mProgressDialog this)
      (calls_of (perform_all ops this)) =
      Some (mProgressDialog (object_of (perform_all ops this))) /\
    Forall respects_ownership (trace_of (perform_all ops this)).
Proof. intros ops this. apply perform_all_manages. Qed.



(** ** The end of a sync, the Stop answer and events without failure *)

Lemma drain_app ps qs this :
  object_of (drain (ps ++ qs) this) =
  object_of (drain qs (object_of (drain ps this))).
Proof.
  revert this. induction ps as [|p ps IH]; intros this; simpl.
  - reflexivity.
  - rewrite !object_of_bind. apply IH.
Qed.

Lemma drain_last ps message env this :
  object_of (drain (ps ++ [StatusChanged message env]) this) =
  object_of (update_status message env (object_of (drain ps this))).
Proof.
  rewrite drain_app. simpl drain. rewrite object_of_bind.
  unfold ret, object_of at 1. cbn [fst snd].
  apply OnCloudStatusChanged_object.
Qed.

Lemma loop_body_drains turn this :
  exists start,
    object_of (loop_body turn this) = object_of (drain (pending turn) start).
Proof.
  unfold loop_body. rewrite !object_of_bind. eexists. reflexivity.
Qed.

Lemma update_status_not_syncing message env this :
  IsSyncing message = false ->
  mInSync (object_of (update_status message env this)) = false /\
  mProgressDialog (object_of (update_status message env this)) = None /\
  mNeedsFirstSaveDialog (object_of (update_status message env this)) = false /\
  mClosingCancelled (object_of (update_status message env this)) =
    mClosingCancelled this /\
  mProgress (object_of (update_status message env this)) = mProgress this.
Proof.
  intros H. unfold update_status, object_of. rewrite H.
  destruct this as [p d c i n].
  destruct n, d as [h|], (savesCount env =? 0); simpl; auto.
Qed.

(** X3: when a turn of the wait ends with a status event that is not
    syncing, [AllowClosing] returns true after that turn, whatever was
    delivered before it in the turn, and the object is left not syncing
    and without a progress dialog. *)
Theorem sync_end_allows_closing :
  forall this turn rest before message env,
    waiting this = true ->
    pending turn = before ++ [StatusChanged message env] ->
    IsSyncing message = false ->
    let r := AllowClosing (turn :: rest) this in
    result_of r = Some true /\
    mInSync (object_of r) = false /\
    mProgressDialog (object_of r) = None.
Proof.
  intros this turn rest before message env Hw Hp Hs r. subst r.
  assert (H : mInSync (object_of (loop_body turn this)) = false /\
              mProgressDialog (object_of (loop_body turn this)) = None).
  { destruct (loop_body_drains turn this) as [start ->].
    rewrite Hp, drain_last.
    destruct (update_status_not_syncing message env
                (object_of (drain before start)) Hs) as (A & B & _).
    split; assumption. }
  destruct H as [Hi Hd].
  assert (Hn : waiting (object_of (loop_body turn this)) = false)
    by (unfold waiting; now rewrite Hi).
  rewrite AllowClosing_unfold, Hw.
  rewrite result_of_bind, object_of_bind.
  rewrite (AllowClosing_not_waiting rest _ Hn).
  set (after := object_of (loop_body turn this)) in *.
  unfold result_of, object_of. cbn [fst snd]. rewrite Hi. auto.
Qed.

Lemma sync_end_allows_closing_witness :
  let r := AllowClosing
             [{| fresh := 1%nat;
                 pending := [StatusChanged (syncing half) no_answers;
                             StatusChanged succeeded no_answers] |}]
             (in_sync None) in
  result_of r = Some true /\
  mInSync (object_of r) = false /\
  mProgressDialog (object_of r) = None.
Proof.
  exact (sync_end_allows_closing (in_sync None)
           {| fresh := 1%nat;
              pending := [StatusChanged (syncing half) no_answers;
                          StatusChanged succeeded no_answers] |}
           [] [StatusChanged (syncing half) no_answers] succeeded no_answers
           eq_refl eq_refl eq_refl).
Defined.

(** X4: the status handler discards the value [SetUploadProgress] returns:
    a poll answered Stopped leaves the object exactly as a poll answered
    Continue does, so the Stop answer neither ends the wait nor is
    remembered. *)
Theorem stop_answer_is_discarded :
  forall this message env,
    object_of (OnCloudStatusChanged message (with_pollResult PR_Stopped env)
                 this) =
    object_of (OnCloudStatusChanged message (with_pollResult PR_Continue env)
                 this) /\
    mClosingCancelled
      (object_of (OnCloudStatusChanged message
                    (with_pollResult PR_Stopped env) this)) =
      mClosingCancelled this /\
    waiting
      (object_of (OnCloudStatusChanged message
                    (with_pollResult PR_Stopped env) this)) =
      IsSyncing message && negb (mClosingCancelled this).
Proof.
  intros this message env.
  rewrite !OnCloudStatusChanged_object.
  unfold update_status, SetUploadProgress, object_of, waiting,
    with_pollResult.
  cbn [savesCount pollResult syncSuccessChoice].
  destruct this as [p d c i n].
  destruct n, (IsSyncing message), d as [h|], (savesCount env =? 0); simpl;
    auto.
Qed.

(** X5: a status event that is not Failed, or that is Failed without an
    attached error, runs no recovery call, re-triggers nothing and writes
    no log record: the handler stops at its status part. *)
Theorem no_recovery_without_failure :
  forall this message env,
    Status message <> Failed \/ Error message = None ->
    let calls := calls_of (OnCloudStatusChanged message env this) in
    filter is_recovery_call calls = [] /\
    retriggers calls = [] /\
    log_records calls = [].
Proof.
  intros this message env H calls. subst calls.
  rewrite (OnCloudStatusChanged_other _ _ _ H).
  repeat split.
  - apply update_status_no_recovery.
  - apply update_status_no_retrigger.
  - apply update_status_no_log.
Qed.

Lemma no_recovery_without_failure_witness :
  let calls :=
    calls_of (OnCloudStatusChanged
                {| Status := Failed; Progress := Double.zero; Error := None |}
                zero_count (in_sync (Some 2%nat))) in
  filter is_recovery_call calls = [] /\
  retriggers calls = [] /\
  log_records calls = [].
Proof.
  exact (no_recovery_without_failure (in_sync (Some 2%nat))
           {| Status := Failed; Progress := Double.zero; Error := None |}
           zero_count (or_intror eq_refl)).
Defined.

Lemma keeps_cancelled_without_dialog_bind {A B} (m : M A) (f : A -> M B) :
  keeps_cancelled_without_dialog m ->
  (forall a, keeps_cancelled_without_dialog (f a)) ->
  keeps_cancelled_without_dialog (bind m f).
Proof.
  intros Hm Hf this H. rewrite object_of_bind. now apply Hf, Hm.
Qed.

Lemma SetUploadProgress_keeps_cwd progress env :
  keeps_cancelled_without_dialog (SetUploadProgress progress env).
Proof.
  intros this. unfold cancelled_without_dialog, SetUploadProgress, object_of.
  destruct this as [p d c i n]; destruct d as [h|]; simpl.
  - destruct (pollResult env); simpl; auto.
  - auto.
Qed.

Lemma OnCloudStatusChanged_keeps_cwd message env :
  keeps_cancelled_without_dialog (OnCloudStatusChanged message env).
Proof.
  intros this. rewrite OnCloudStatusChanged_object.
  unfold cancelled_without_dialog, update_status, SetUploadProgress,
    object_of.
  destruct this as [p d c i n].
  destruct n, (IsSyncing message), d as [h|], (savesCount env =? 0),
    (pollResult env); simpl; auto.
Qed.

Lemma drain_keeps_cwd ps : keeps_cancelled_without_dialog (drain ps).
Proof.
  induction ps as [|p ps IH]; simpl.
  - intros this H; exact H.
  - apply keeps_cancelled_without_dialog_bind; [|intros; apply IH].
    destruct p; simpl.
    + apply OnCloudStatusChanged_keeps_cwd.
    + apply keeps_cancelled_without_dialog_bind;
        [apply SetUploadProgress_keeps_cwd | intros _ this H; exact H].
Qed.

Lemma AllowClosing_keeps_cwd script :
  keeps_cancelled_without_dialog (AllowClosing script).
Proof.
  induction script as [|turn rest IH]; intros this H;
    rewrite AllowClosing_unfold; destruct (waiting this) eqn:Hw;
    try exact H.
  rewrite object_of_bind. apply IH.
  unfold loop_body. rewrite !object_of_bind.
  apply drain_keeps_cwd.
  unfold waiting in Hw. apply andb_true_iff in Hw. destruct Hw as [_ Hc].
  apply negb_true_iff in Hc.
  unfold cancelled_without_dialog, object_of, get, call, set_mProgressDialog,
    modify, ret, bind.
  destruct this as [p d c i n]. simpl in *. subst c.
  destruct d; simpl; discriminate.
Qed.

(** X6: once a cancellation is recorded the object owns no progress dialog,
    and this holds after every sequence of operations: the poll that
    records the cancellation destroys the dialog, and none is created
    afterwards. *)
Theorem no_dialog_once_cancelled :
  forall ops this,
    (mClosingCancelled this = true -> mProgressDialog this = None) ->
    mClosingCancelled (object_of (perform_all ops this)) = true ->
    mProgressDialog (object_of (perform_all ops this)) = None.
Proof.
  induction ops as [|op ops IH]; intros this H; simpl.
  - exact H.
  - rewrite object_of_bind. apply IH.
    destruct op; simpl.
    + rewrite object_of_bind. now apply SetUploadProgress_keeps_cwd.
    + now apply OnCloudStatusChanged_keeps_cwd.
    + rewrite object_of_bind. now apply AllowClosing_keeps_cwd.
Qed.

Lemma no_dialog_once_cancelled_witness :
  mProgressDialog
    (object_of
       (perform_all
          [DoAllowClosing
             [{| fresh := 5%nat;
                 pending := [UploadProgress half cancel_answers] |}];
           DoOnCloudStatusChanged (syncing Double.one) no_answers;
           DoAllowClosing [{| fresh := 6%nat; pending := [] |}]]
          (in_sync None))) = None.
Proof.
  apply (no_dialog_once_cancelled
           [DoAllowClosing
              [{| fresh := 5%nat;
                  pending := [UploadProgress half cancel_answers] |}];
            DoOnCloudStatusChanged (syncing Double.one) no_answers;
            DoAllowClosing [{| fresh := 6%nat; pending := [] |}]]
           (in_sync None)).
  - discriminate.
  - reflexivity.
Defined.

(** X7: on a Failed event that carries an error while the first-save
    dialog is owed, the dialog is shown although the sync failed, and it is
    shown before the recovery flow and the log record. *)
Theorem announcement_precedes_recovery :
  forall this message error env,
    Status message = Failed ->
    Error message = Some error ->
    mNeedsFirstSaveDialog this || (savesCount env =? 0) = true ->
    exists before,
      calls_of (OnCloudStatusChanged message env this) =
        before ++ [ShowSyncSuccessDialog (syncSuccessChoice env)] ++
        recovery_table error env ++ [wxLogError (log_text error)] /\
      filter is_recovery_call before = [] /\
      announcements before = 0%nat.
Proof.
  intros this message error env Hs He Ho.
  rewrite (OnCloudStatusChanged_failed _ _ _ _ Hs He).
  assert (Hn : IsSyncing message = false)
    by (unfold IsSyncing; now rewrite Hs).
  unfold update_status, calls_of, trace_of. rewrite Hn.
  destruct this as [p d c i n]. simpl in Ho.
  destruct n, d as [h|]; simpl in *; try rewrite Ho; simpl.
  - exists [DestroyProgress h]. auto.
  - exists []. auto.
  - exists [GetSavesCount (savesCount env); DestroyProgress h]. auto.
  - exists [GetSavesCount (savesCount env)]. auto.
Qed.

Lemma announcement_precedes_recovery_witness :
  exists before,
    calls_of (OnCloudStatusChanged (failure Network "offline") zero_count
                (in_sync (Some 3%nat))) =
      before ++ [ShowSyncSuccessDialog (OtherIdentifier "close")] ++
      [ShowConnectionIssuesDialog] ++
      [wxLogError "Cloud sync has failed: offline"] /\
    filter is_recovery_call before = [] /\
    announcements before = 0%nat.
Proof.
  exact (announcement_precedes_recovery (in_sync (Some 3%nat))
           (failure Network "offline")
           {| Type_ := Network; ErrorMessage := "offline" |}
           zero_count eq_refl eq_refl eq_refl).
Defined.


(** ** The order of doubles *)

Lemma leb_ltb_trans (a b c : double) :
  Double.leb a b = true -> DoubleOps.ltb b c = true ->
  DoubleOps.ltb a c = true.
Proof.
  unfold Double.leb, DoubleOps.ltb, SFleb, SFltb, SFcompare.
  destruct a as [sa|sa| |sa ma ea], b as [sb|sb| |sb mb eb],
    c as [sc|sc| |sc mc ec];
    try destruct sa; try destruct sb; try destruct sc;
    try discriminate; try reflexivity;
    repeat match goal with
    | |- context [PosDef.Pos.compare_cont Eq ?p ?q] =>
        change (PosDef.Pos.compare_cont Eq p q) with (Pos.compare p q)
    end;
    repeat match goal with
    | |- context [Z.compare ?x ?y] => destruct (Z.compare_spec x y)
    | |- context [Pos.compare ?x ?y] => destruct (Pos.compare_spec x y)
    end; simpl; intros; try discriminate; try reflexivity;
    exfalso; lia.
Qed.



(** ** Tick sizes *)

Lemma ltb_leb_trans (a b c : double) :
  DoubleOps.ltb a b = true -> Double.leb b c = true ->
  DoubleOps.ltb a c = true.
Proof.
  unfold Double.leb, DoubleOps.ltb, SFleb, SFltb, SFcompare.
  destruct a as [sa|sa| |sa ma ea], b as [sb|sb| |sb mb eb],
    c as [sc|sc| |sc mc ec];
    try destruct sa; try destruct sb; try destruct sc;
    try discriminate; try reflexivity;
    repeat match goal with
    | |- context [PosDef.Pos.compare_cont Eq ?p ?q] =>
        change (PosDef.Pos.compare_cont Eq p q) with (Pos.compare p q)
    end;
    repeat match goal with
    | |- context [Z.compare ?x ?y] => destruct (Z.compare_spec x y)
    | |- context [Pos.compare ?x ?y] => destruct (Pos.compare_spec x y)
    end; simpl; intros; try discriminate; try reflexivity;
    exfalso; lia.
Qed.

Ltac split_units u :=
  repeat match goal with
  | |- context [if DoubleOps.ltb u ?c then _ else _] =>
      let E := fresh "E" in destruct (DoubleOps.ltb u c) eqn:E
  end.

Ltac whole_multiple a b :=
  exists a, b;
  split; [lia|];
  split; [apply Z.mod_divide; [lia | reflexivity]|];
  intros RealFormat t; vm_compute; reflexivity.

(** X8: for [units] above 0.5 the tick sizes are fixed by [units] alone:
    there are whole numbers of seconds, the major one a whole multiple of
    the minor one, that [SetTickSizes] assigns to [mMinor] and [mMajor]
    whatever [RealFormat] would answer and whatever the tick sizes were
    before; the other two outputs are left as they were. *)
Theorem tick_sizes_whole_multiple :
  forall units,
    DoubleOps.ltb half units = true ->
    exists minor major,
      1 <= minor /\
      (minor | major) /\
      forall RealFormat t,
        TimeFormat.SetTickSizes RealFormat units t =
        {| TimeFormat.mMajor := Double.of_int major;
           TimeFormat.mMinor := Double.of_int minor;
           TimeFormat.mMinorMinor := TimeFormat.mMinorMinor t;
           TimeFormat.mDigits := TimeFormat.mDigits t |}.
Proof.
  intros units H.
  unfold TimeFormat.SetTickSizes. rewrite H.
  split_units units; unfold TimeFormat.set_ticks.
  - whole_multiple 1 5.
  - whole_multiple 5 15.
  - whole_multiple 10 30.
  - whole_multiple 15 60.
  - whole_multiple 30 60.
  - whole_multiple 60 300.
  - whole_multiple 300 900.
  - whole_multiple 600 1800.
  - whole_multiple 900 3600.
  - whole_multiple 1800 3600.
  - whole_multiple 3600 21600.
  - whole_multiple 21600 86400.
  - whole_multiple 86400 604800.
  - whole_multiple 604800 604800.
Qed.

Lemma tick_sizes_whole_multiple_witness :
  exists minor major,
    1 <= minor /\
    (minor | major) /\
    forall RealFormat t,
      TimeFormat.SetTickSizes RealFormat (Double.of_int 7) t =
      {| TimeFormat.mMajor := Double.of_int major;
         TimeFormat.mMinor := Double.of_int minor;
         TimeFormat.mMinorMinor := TimeFormat.mMinorMinor t;
         TimeFormat.mDigits := TimeFormat.mDigits t |}.
Proof.
  exact (tick_sizes_whole_multiple (Double.of_int 7) eq_refl).
Defined.

(** X9: for [units] above 0.5 and below one week, the minor tick is longer
    than [units]. *)
Theorem minor_tick_exceeds_units :
  forall RealFormat units t,
    DoubleOps.ltb half units = true ->
    DoubleOps.ltb units (Double.of_int 604800) = true ->
    DoubleOps.ltb units
      (TimeFormat.mMinor (TimeFormat.SetTickSizes RealFormat units t)) = true.
Proof.
  intros RealFormat units t H W.
  unfold TimeFormat.SetTickSizes. rewrite H.
  split_units units; cbn [TimeFormat.mMinor TimeFormat.set_ticks];
    assumption.
Qed.

Lemma minor_tick_exceeds_units_witness :
  DoubleOps.ltb (Double.of_int 100000)
    (TimeFormat.mMinor
       (TimeFormat.SetTickSizes (fun _ t => t) (Double.of_int 100000)
          {| TimeFormat.mMajor := Double.zero; TimeFormat.mMinor := Double.zero;
             TimeFormat.mMinorMinor := Double.zero; TimeFormat.mDigits := 0 |}))
  = true.
Proof.
  exact (minor_tick_exceeds_units (fun _ t => t) (Double.of_int 100000)
           {| TimeFormat.mMajor := Double.zero; TimeFormat.mMinor := Double.zero;
              TimeFormat.mMinorMinor := Double.zero; TimeFormat.mDigits := 0 |}
           eq_refl eq_refl).
Defined.

(** X10: tick sizes grow with [units]: above 0.5, a [units] that is not
    smaller gives minor and major ticks that are not smaller. *)
Theorem tick_sizes_monotone :
  forall RealFormat u1 u2 t1 t2,
    DoubleOps.ltb half u1 = true ->
    Double.leb u1 u2 = true ->
    let r1 := TimeFormat.SetTickSizes RealFormat u1 t1 in
    let r2 := TimeFormat.SetTickSizes RealFormat u2 t2 in
    Double.leb (TimeFormat.mMinor r1) (TimeFormat.mMinor r2) = true /\
    Double.leb (TimeFormat.mMajor r1) (TimeFormat.mMajor r2) = true.
Proof.
  intros RealFormat u1 u2 t1 t2 H1 L r1 r2. subst r1 r2.
  pose proof (ltb_leb_trans _ _ _ H1 L) as H2.
  unfold TimeFormat.SetTickSizes. rewrite H1, H2.
  split_units u1; split_units u2;
    cbn [TimeFormat.mMinor TimeFormat.mMajor TimeFormat.set_ticks];
    first
      [ split; vm_compute; reflexivity
      | exfalso;
        match goal with
        | Hc : DoubleOps.ltb u2 ?c = true, Hn : DoubleOps.ltb u1 ?c = false
          |- _ => rewrite (leb_ltb_trans u1 u2 c L Hc) in Hn; discriminate Hn
        end ].
Qed.

Lemma tick_sizes_monotone_witness :
  let t := {| TimeFormat.mMajor := Double.zero; TimeFormat.mMinor := Double.zero;
              TimeFormat.mMinorMinor := Double.zero; TimeFormat.mDigits := 0 |} in
  Double.leb
    (TimeFormat.mMinor (TimeFormat.SetTickSizes (fun _ t => t)
                          (Double.of_int 7) t))
    (TimeFormat.mMinor (TimeFormat.SetTickSizes (fun _ t => t)
                          (Double.of_int 700) t)) = true /\
  Double.leb
    (TimeFormat.mMajor (TimeFormat.SetTickSizes (fun _ t => t)
                          (Double.of_int 7) t))
    (TimeFormat.mMajor (TimeFormat.SetTickSizes (fun _ t => t)
                          (Double.of_int 700) t)) = true.
Proof.
  exact (tick_sizes_monotone (fun _ t => t) (Double.of_int 7)
           (Double.of_int 700)
           {| TimeFormat.mMajor := Double.zero; TimeFormat.mMinor := Double.zero;
              TimeFormat.mMinorMinor := Double.zero; TimeFormat.mDigits := 0 |}
           {| TimeFormat.mMajor := Double.zero; TimeFormat.mMinor := Double.zero;
              TimeFormat.mMinorMinor := Double.zero; TimeFormat.mDigits := 0 |}
           eq_refl eq_refl).
Defined.


(** ** Signs *)

Lemma binary_round_aux_sign s m e l :
  nonneg (binary_round_aux Double.prec Double.emax s m e l) = negb s \/
  nonneg (binary_round_aux Double.prec Double.emax s m e l) = true.
Proof.
  unfold binary_round_aux.
  destruct (shr_fexp _ _ m e l) as [mrs e'].
  destruct (shr_fexp _ _ _ e' loc_Exact) as [mrs' e''].
  destruct (shr_m mrs'); [now right| |now right].
  destruct (e'' <=? Double.emax - Double.prec); now left.
Qed.

Lemma to_int_nonneg x : nonneg x = true -> 0 <= DoubleOps.to_int x.
Proof.
  destruct x as [s|s| |[|] m e]; simpl; try lia; try discriminate.
  intros _. apply Z.shiftl_nonneg. lia.
Qed.

Lemma div_nonneg x mc ec :
  nonneg x = true ->
  nonneg (DoubleOps.div x (S754_finite false mc ec)) = true.
Proof.
  destruct x as [s|[|]| |[|] m e]; simpl; try discriminate; try reflexivity.
  intros _. unfold DoubleOps.div, SFdiv.
  destruct (SFdiv_core_binary _ _ _ _ _ _) as [[mz ez] lz].
  destruct (binary_round_aux_sign (xorb false false) mz ez lz) as [H|H];
    exact H.
Qed.

Lemma add_nonneg x mc ec :
  nonneg x = true ->
  nonneg (DoubleOps.add x (S754_finite false mc ec)) = true.
Proof.
  destruct x as [s|[|]| |[|] m e]; simpl; try discriminate; try reflexivity.
  intros _. unfold DoubleOps.add, SFadd. cbn [cond_Zopp].
  set (a := fst (shl_align m e (Z.min e ec))).
  set (b := fst (shl_align mc ec (Z.min e ec))).
  change (Zpos a + Zpos b) with (Zpos (a + b)).
  unfold binary_normalize, binary_round.
  destruct (shl_align (a + b) _ _) as [mz ez].
  destruct (binary_round_aux_sign false (Zpos mz) ez loc_Exact) as [H|H];
    exact H.
Qed.

Lemma magnitude_nonneg d mMinor : nonneg (magnitude d mMinor) = true.
Proof.
  unfold magnitude. generalize (replaced d mMinor). intros x.
  destruct x as [s|[|]| |[|] m e]; reflexivity.
Qed.

(** ** Printing and reading decimal fields *)

Lemma printf_d_field n : 0 <= n -> is_field (TimeFormat.printf_d n) n.
Proof.
  intros Hn. destruct n as [|p|p]; [| |lia].
  - exists (Decimal.D0 Decimal.Nil). repeat split. discriminate.
  - exists (Pos.to_uint p). split; [apply Unsigned.to_uint_nonnil|]. split.
    + unfold TimeFormat.printf_d. cbn [Z.to_int NilZero.string_of_int].
      pose proof (Unsigned.to_uint_nonnil p) as H.
      destruct (Pos.to_uint p); [contradiction|reflexivity..].
    + unfold Z.of_uint. now rewrite Unsigned.of_to.
Qed.

Lemma printf_02d_field n : 0 <= n -> is_field (TimeFormat.printf_02d n) n.
Proof.
  intros Hn. unfold TimeFormat.printf_02d.
  destruct ((0 <=? n) && (n <? 10)); [|now apply printf_d_field].
  destruct (printf_d_field n Hn) as (u & Hu & -> & Hv).
  exists (Decimal.D0 u). repeat split; [discriminate | exact Hv].
Qed.

Lemma fields_digits_colon u rest :
  TimeFormat.fields (NilEmpty.string_of_uint u ++ String ":" rest) =
  NilEmpty.string_of_uint u :: TimeFormat.fields rest.
Proof.
  induction u; cbn [NilEmpty.string_of_uint String.append TimeFormat.fields];
    try reflexivity; rewrite IHu; reflexivity.
Qed.

Lemma fields_digits u :
  TimeFormat.fields (NilEmpty.string_of_uint u) = [NilEmpty.string_of_uint u].
Proof.
  induction u; cbn [NilEmpty.string_of_uint TimeFormat.fields];
    try reflexivity; rewrite IHu; reflexivity.
Qed.

Lemma field_value_digits f v :
  is_field f v -> TimeFormat.field_value f = Some v.
Proof.
  intros (u & Hu & -> & <-). unfold TimeFormat.field_value.
  rewrite NilEmpty.usu. destruct u; [contradiction|reflexivity..].
Qed.

Lemma clock_value_cons f v fs acc :
  is_field f v ->
  TimeFormat.clock_value (f :: fs) acc =
  TimeFormat.clock_value fs (acc * 60 + v).
Proof.
  intros H. cbn [TimeFormat.clock_value].
  now rewrite (field_value_digits f v H).
Qed.

Lemma fields_cons f v rest :
  is_field f v ->
  TimeFormat.fields (f ++ String ":" rest) = f :: TimeFormat.fields rest.
Proof. intros (u & _ & -> & _). apply fields_digits_colon. Qed.

Lemma fields_last f v : is_field f v -> TimeFormat.fields f = [f].
Proof. intros (u & _ & -> & _). apply fields_digits. Qed.

Lemma clock1 f1 v1 :
  is_field f1 v1 -> TimeFormat.parse_clock f1 = Some v1.
Proof.
  intros H1. unfold TimeFormat.parse_clock.
  rewrite (fields_last _ _ H1), (clock_value_cons _ _ _ _ H1). reflexivity.
Qed.

Lemma clock2 f1 v1 f2 v2 :
  is_field f1 v1 -> is_field f2 v2 ->
  TimeFormat.parse_clock (f1 ++ String ":" f2) = Some (v1 * 60 + v2).
Proof.
  intros H1 H2. unfold TimeFormat.parse_clock.
  rewrite (fields_cons _ _ _ H1), (fields_last _ _ H2).
  rewrite (clock_value_cons _ _ _ _ H1), (clock_value_cons _ _ _ _ H2).
  reflexivity.
Qed.

Lemma clock3 f1 v1 f2 v2 f3 v3 :
  is_field f1 v1 -> is_field f2 v2 -> is_field f3 v3 ->
  TimeFormat.parse_clock (f1 ++ String ":" (f2 ++ String ":" f3)) =
  Some ((v1 * 60 + v2) * 60 + v3).
Proof.
  intros H1 H2 H3. unfold TimeFormat.parse_clock.
  rewrite (fields_cons _ _ _ H1), (fields_cons _ _ _ H2),
    (fields_last _ _ H3).
  rewrite (clock_value_cons _ _ _ _ H1), (clock_value_cons _ _ _ _ H2),
    (clock_value_cons _ _ _ _ H3).
  reflexivity.
Qed.

Lemma double_zero_field : is_field "00" 0.
Proof.
  exists (Decimal.D0 (Decimal.D0 Decimal.Nil)). repeat split. discriminate.
Qed.

Lemma hours_text_decodes h :
  0 <= h ->
  TimeFormat.parse_clock (TimeFormat.hours_text h) = Some (3600 * h).
Proof.
  intros Hh. unfold TimeFormat.hours_text.
  change ":00:00"%string with (String ":" ("00" ++ String ":" "00"))%string.
  rewrite (clock3 _ h _ 0 _ 0); [f_equal; lia|..];
    auto using printf_d_field, double_zero_field.
Qed.

Lemma minutes_text_decodes m :
  0 <= m ->
  TimeFormat.parse_clock (TimeFormat.minutes_text m) = Some (60 * m).
Proof.
  intros Hm. unfold TimeFormat.minutes_text.
  destruct (Z.leb_spec 60 m).
  - change (":" ++ TimeFormat.printf_02d (Z.rem m 60) ++ ":00")%string
      with (String ":" (TimeFormat.printf_02d (Z.rem m 60)
                        ++ String ":" "00"))%string.
    pose proof (Z.quot_rem m 60 ltac:(lia)) as E.
    pose proof (Z.rem_bound_pos m 60 ltac:(lia) ltac:(lia)) as B.
    assert (0 <= Z.quot m 60) by (apply Z.quot_pos; lia).
    rewrite (clock3 _ (Z.quot m 60) _ (Z.rem m 60) _ 0);
      [f_equal; lia|..];
      auto using printf_d_field, printf_02d_field, double_zero_field.
    apply printf_02d_field. lia.
  - change ":00"%string with (String ":" "00").
    rewrite (clock2 _ m _ 0); [f_equal; lia|..];
      auto using printf_d_field, double_zero_field.
Qed.

Lemma seconds_text_decodes s :
  0 <= s ->
  TimeFormat.parse_clock (TimeFormat.seconds_text s) = Some s.
Proof.
  intros Hs. unfold TimeFormat.seconds_text.
  pose proof (Z.quot_rem s 60 ltac:(lia)) as E.
  pose proof (Z.rem_bound_pos s 60 ltac:(lia) ltac:(lia)) as B.
  assert (Q : 0 <= Z.quot s 60) by (apply Z.quot_pos; lia).
  destruct (Z.leb_spec 3600 s).
  - change (":" ++ TimeFormat.printf_02d (Z.rem (Z.quot s 60) 60) ++ ":"
            ++ TimeFormat.printf_02d (Z.rem s 60))%string
      with (String ":" (TimeFormat.printf_02d (Z.rem (Z.quot s 60) 60)
                        ++ String ":" (TimeFormat.printf_02d (Z.rem s 60))))%string.
    pose proof (Z.quot_rem (Z.quot s 60) 60 ltac:(lia)) as E2.
    pose proof (Z.rem_bound_pos (Z.quot s 60) 60 Q ltac:(lia)) as B2.
    assert (E3 : Z.quot s 3600 = Z.quot (Z.quot s 60) 60)
      by (rewrite Z.quot_quot by lia; reflexivity).
    assert (0 <= Z.quot s 3600) by (apply Z.quot_pos; lia).
    rewrite (clock3 _ (Z.quot s 3600) _ (Z.rem (Z.quot s 60) 60)
               _ (Z.rem s 60));
      [f_equal; lia|..]; try apply printf_d_field; try apply printf_02d_field;
      lia.
  - destruct (Z.leb_spec 60 s).
    + change (":" ++ TimeFormat.printf_02d (Z.rem s 60))%string
        with (String ":" (TimeFormat.printf_02d (Z.rem s 60))).
      rewrite (clock2 _ (Z.quot s 60) _ (Z.rem s 60));
        [f_equal; lia|..]; try apply printf_d_field;
        try apply printf_02d_field; lia.
    + apply clock1. now apply printf_d_field.
Qed.

Lemma printf_02d_two_digits n :
  0 <= n < 60 -> String.length (TimeFormat.printf_02d n) = 2%nat.
Proof.
  intros Hn.
  assert (H : Forall (fun k => String.length
                                 (TimeFormat.printf_02d (Z.of_nat k)) = 2%nat)
                (seq 0 60)) by (repeat constructor).
  rewrite Forall_forall in H.
  specialize (H (Z.to_nat n)). rewrite Z2Nat.id in H by lia.
  apply H. apply in_seq. lia.
Qed.

Lemma fields2 f1 v1 f2 v2 :
  is_field f1 v1 -> is_field f2 v2 ->
  TimeFormat.fields (f1 ++ String ":" f2) = [f1; f2].
Proof.
  intros H1 H2. now rewrite (fields_cons _ _ _ H1), (fields_last _ _ H2).
Qed.

Lemma fields3 f1 v1 f2 v2 f3 v3 :
  is_field f1 v1 -> is_field f2 v2 -> is_field f3 v3 ->
  TimeFormat.fields (f1 ++ String ":" (f2 ++ String ":" f3)) = [f1; f2; f3].
Proof.
  intros H1 H2 H3.
  now rewrite (fields_cons _ _ _ H1), (fields_cons _ _ _ H2),
    (fields_last _ _ H3).
Qed.

Lemma hours_text_fields h :
  0 <= h -> two_digit_fields (TimeFormat.hours_text h).
Proof.
  intros Hh. unfold two_digit_fields, TimeFormat.hours_text.
  change ":00:00"%string with (String ":" ("00" ++ String ":" "00"))%string.
  rewrite (fields3 _ h _ 0 _ 0);
    auto using printf_d_field, double_zero_field.
  repeat constructor.
Qed.

Lemma minutes_text_fields m :
  0 <= m -> two_digit_fields (TimeFormat.minutes_text m).
Proof.
  intros Hm. unfold two_digit_fields, TimeFormat.minutes_text.
  destruct (Z.leb_spec 60 m).
  - change (":" ++ TimeFormat.printf_02d (Z.rem m 60) ++ ":00")%string
      with (String ":" (TimeFormat.printf_02d (Z.rem m 60)
                        ++ String ":" "00"))%string.
    pose proof (Z.rem_bound_pos m 60 ltac:(lia) ltac:(lia)) as B.
    assert (0 <= Z.quot m 60) by (apply Z.quot_pos; lia).
    rewrite (fields3 _ (Z.quot m 60) _ (Z.rem m 60) _ 0);
      try apply printf_d_field; try apply printf_02d_field;
      try apply double_zero_field; try lia.
    cbn [tl]. repeat constructor. now apply printf_02d_two_digits.
  - change ":00"%string with (String ":" "00").
    rewrite (fields2 _ m _ 0); auto using printf_d_field, double_zero_field.
    repeat constructor.
Qed.

Lemma seconds_text_fields s :
  0 <= s -> two_digit_fields (TimeFormat.seconds_text s).
Proof.
  intros Hs. unfold two_digit_fields, TimeFormat.seconds_text.
  pose proof (Z.rem_bound_pos s 60 ltac:(lia) ltac:(lia)) as B.
  assert (Q : 0 <= Z.quot s 60) by (apply Z.quot_pos; lia).
  destruct (Z.leb_spec 3600 s).
  - change (":" ++ TimeFormat.printf_02d (Z.rem (Z.quot s 60) 60) ++ ":"
            ++ TimeFormat.printf_02d (Z.rem s 60))%string
      with (String ":" (TimeFormat.printf_02d (Z.rem (Z.quot s 60) 60)
                        ++ String ":" (TimeFormat.printf_02d (Z.rem s 60))))%string.
    pose proof (Z.rem_bound_pos (Z.quot s 60) 60 Q ltac:(lia)) as B2.
    assert (0 <= Z.quot s 3600) by (apply Z.quot_pos; lia).
    rewrite (fields3 _ (Z.quot s 3600) _ (Z.rem (Z.quot s 60) 60)
               _ (Z.rem s 60));
      try apply printf_d_field; try apply printf_02d_field; try lia.
    cbn [tl]. repeat constructor; now apply printf_02d_two_digits.
  - destruct (Z.leb_spec 60 s).
    + change (":" ++ TimeFormat.printf_02d (Z.rem s 60))%string
        with (String ":" (TimeFormat.printf_02d (Z.rem s 60))).
      rewrite (fields2 _ (Z.quot s 60) _ (Z.rem s 60));
        try apply printf_d_field; try apply printf_02d_field; try lia.
      cbn [tl]. repeat constructor. now apply printf_02d_two_digits.
    + rewrite (fields_last _ s); [constructor | now apply printf_d_field].
Qed.

(** ** Labels of major ticks *)

Lemma SetLabelString_major Printf_double pow s d mMinor mDigits :
  TimeFormat.SetLabelString Printf_double pow s d mMinor mDigits
    TimeFormat.t_major =
  (sign_text s d mMinor ++
   if Double.leb (TimeFormat.lit 3600) mMinor then
     TimeFormat.hours_text
       (DoubleOps.to_int
          (DoubleOps.add
             (DoubleOps.div (magnitude d mMinor) (TimeFormat.lit 3600)) half))
   else if Double.leb (TimeFormat.lit 60) mMinor then
     TimeFormat.minutes_text
       (DoubleOps.to_int
          (DoubleOps.add
             (DoubleOps.div (magnitude d mMinor) (TimeFormat.lit 60)) half))
   else if Double.leb (TimeFormat.lit 1) mMinor then
     TimeFormat.seconds_text
       (DoubleOps.to_int (DoubleOps.add (magnitude d mMinor) half))
   else TimeFormat.fraction_text Printf_double pow (magnitude d mMinor)
          mDigits)%string.
Proof.
  unfold TimeFormat.SetLabelString, sign_text, magnitude, replaced.
  cbv zeta.
  destruct (Double.leb (TimeFormat.lit 3600) mMinor); [reflexivity|].
  destruct (Double.leb (TimeFormat.lit 60) mMinor); [reflexivity|].
  destruct (Double.leb (TimeFormat.lit 1) mMinor); reflexivity.
Qed.

Lemma rounded_nonneg d mMinor mc ec :
  0 <= DoubleOps.to_int
         (DoubleOps.add
            (DoubleOps.div (magnitude d mMinor) (S754_finite false mc ec))
            half).
Proof.
  apply to_int_nonneg. apply add_nonneg. apply div_nonneg.
  apply magnitude_nonneg.
Qed.

Lemma shown_seconds_cast d mMinor :
  shown_seconds d mMinor =
  label_unit mMinor * DoubleOps.to_int (cast_operand d mMinor).
Proof.
  unfold shown_seconds, label_unit, cast_operand.
  destruct (Double.leb (TimeFormat.lit 3600) mMinor); [reflexivity|].
  destruct (Double.leb (TimeFormat.lit 60) mMinor); [reflexivity|].
  now rewrite Z.mul_1_l.
Qed.

Lemma fits_int_bounds x :
  DoubleOps.fits_int x = true ->
  - 2 ^ 31 <= DoubleOps.to_int x < 2 ^ 31.
Proof.
  destruct x as [s|s| |s m e]; simpl; try discriminate; [lia|].
  intros H. apply andb_prop in H. destruct H as [H1 H2].
  apply Z.leb_le in H1. apply Z.ltb_lt in H2. split; assumption.
Qed.

(** X11: for [mMinor] at least 1 and a time for which the [(int)] cast of
    the code is defined (its operand is finite and its truncated value is
    an [int]), the label of a major tick is the sign text followed by a
    clock text that reads back, field by field in base sixty, as the number
    the cast gave, counted in hours, minutes or seconds according to
    [mMinor]: the printing of that number loses nothing.  The number is the
    truncated value of the magnitude (divided by 3600 or 60) plus one half,
    it is not negative and below [2 ^ 31], and every field after the first
    has two digits. *)
Theorem major_label_reads_back :
  forall Printf_double pow s d mMinor mDigits,
    Double.leb (TimeFormat.lit 1) mMinor = true ->
    DoubleOps.fits_int (cast_operand d mMinor) = true ->
    exists text,
      TimeFormat.SetLabelString Printf_double pow s d mMinor mDigits
        TimeFormat.t_major = (sign_text s d mMinor ++ text)%string /\
      TimeFormat.parse_clock text = Some (shown_seconds d mMinor) /\
      0 <= shown_seconds d mMinor /\
      two_digit_fields text /\
      shown_seconds d mMinor =
        label_unit mMinor * DoubleOps.to_int (cast_operand d mMinor) /\
      0 <= DoubleOps.to_int (cast_operand d mMinor) < 2 ^ 31.
Proof.
  intros Printf_double pow s d mMinor mDigits H1 Hfit.
  assert (Hcast := shown_seconds_cast d mMinor).
  assert (Hrange : 0 <= DoubleOps.to_int (cast_operand d mMinor) < 2 ^ 31).
  { split; [|apply fits_int_bounds, Hfit].
    unfold cast_operand.
    destruct (Double.leb (TimeFormat.lit 3600) mMinor);
      [|destruct (Double.leb (TimeFormat.lit 60) mMinor)].
    - apply (rounded_nonneg d mMinor 7916483719987200 (-41)).
    - apply (rounded_nonneg d mMinor 8444249301319680 (-47)).
    - apply to_int_nonneg. apply add_nonneg. apply magnitude_nonneg. }
  clear Hfit. revert Hcast Hrange.
  rewrite SetLabelString_major. unfold shown_seconds.
  generalize (label_unit mMinor * DoubleOps.to_int (cast_operand d mMinor)).
  generalize (DoubleOps.to_int (cast_operand d mMinor)).
  intros n v Hcast Hrange.
  destruct (Double.leb (TimeFormat.lit 3600) mMinor);
    [|destruct (Double.leb (TimeFormat.lit 60) mMinor); [|rewrite H1]];
    eexists; (split; [reflexivity|]).
  - pose proof (rounded_nonneg d mMinor 7916483719987200 (-41)) as N.
    split; [apply hours_text_decodes; exact N | ].
    split; [|split; [apply hours_text_fields; exact N | split; assumption]].
    change (TimeFormat.lit 3600) with (S754_finite false 7916483719987200 (-41)).
    lia.
  - pose proof (rounded_nonneg d mMinor 8444249301319680 (-47)) as N.
    split; [apply minutes_text_decodes; exact N | ].
    split; [|split; [apply minutes_text_fields; exact N | split; assumption]].
    change (TimeFormat.lit 60) with (S754_finite false 8444249301319680 (-47)).
    lia.
  - assert (N : 0 <= DoubleOps.to_int (DoubleOps.add (magnitude d mMinor) half)).
    { apply to_int_nonneg. apply add_nonneg. apply magnitude_nonneg. }
    split; [apply seconds_text_decodes; exact N | ].
    split; [exact N |].
    split; [apply seconds_text_fields; exact N | split; assumption].
Qed.

Lemma major_label_reads_back_witness :
  exists text,
    TimeFormat.SetLabelString quote_format first_argument "" sample_time
      (Double.of_int 60) 0 TimeFormat.t_major =
      (sign_text "" sample_time (Double.of_int 60) ++ text)%string /\
    TimeFormat.parse_clock text =
      Some (shown_seconds sample_time (Double.of_int 60)) /\
    0 <= shown_seconds sample_time (Double.of_int 60) /\
    two_digit_fields text /\
    shown_seconds sample_time (Double.of_int 60) =
      label_unit (Double.of_int 60) *
      DoubleOps.to_int (cast_operand sample_time (Double.of_int 60)) /\
    0 <= DoubleOps.to_int (cast_operand sample_time (Double.of_int 60))
      < 2 ^ 31.
Proof.
  exact (major_label_reads_back quote_format first_argument "" sample_time
           (Double.of_int 60) 0 eq_refl eq_refl).
Defined.

Lemma negative_opp d :
  DoubleOps.ltb d Double.zero = true ->
  DoubleOps.ltb (DoubleOps.opp d) Double.zero = false.
Proof. destruct d as [s|[|]| |[|] m e]; simpl; try discriminate; reflexivity. Qed.

(** X12: a major tick at a negative time, at least one minor tick away
    from zero, is labelled with a minus sign followed by the label of the
    opposite time; what the string held before is discarded, whereas the
    label of a time that is not negative is appended to it. *)
Theorem negative_label_is_minus_positive_label :
  forall Printf_double pow s d mMinor mDigits,
    DoubleOps.ltb d Double.zero = true ->
    DoubleOps.ltb Double.zero (DoubleOps.add d mMinor) = false ->
    TimeFormat.SetLabelString Printf_double pow s d mMinor mDigits
      TimeFormat.t_major =
    ("-" ++ TimeFormat.SetLabelString Printf_double pow "" (DoubleOps.opp d)
              mMinor mDigits TimeFormat.t_major)%string /\
    forall s',
      TimeFormat.SetLabelString Printf_double pow s' (DoubleOps.opp d)
        mMinor mDigits TimeFormat.t_major =
      (s' ++ TimeFormat.SetLabelString Printf_double pow ""
               (DoubleOps.opp d) mMinor mDigits TimeFormat.t_major)%string.
Proof.
  intros Printf_double pow s d mMinor mDigits Hn Hz.
  pose proof (negative_opp d Hn) as Ho.
  assert (R : replaced d mMinor = d)
    by (unfold replaced; now rewrite Hn, Hz).
  assert (R' : replaced (DoubleOps.opp d) mMinor = DoubleOps.opp d)
    by (unfold replaced; now rewrite Ho).
  assert (M : magnitude d mMinor = DoubleOps.opp d)
    by (unfold magnitude; now rewrite R, Hn).
  assert (M' : magnitude (DoubleOps.opp d) mMinor = DoubleOps.opp d)
    by (unfold magnitude; now rewrite R', Ho).
  split; [|intros s']; rewrite !SetLabelString_major; unfold sign_text;
    rewrite ?R, ?R', ?Hn, ?Ho, ?M, ?M'; reflexivity.
Qed.

Lemma negative_label_is_minus_positive_label_witness :
  TimeFormat.SetLabelString quote_format first_argument "12" minus_ninety
    (Double.of_int 1) 0 TimeFormat.t_major = "-1:30"%string.
Proof.
  exact (proj1 (negative_label_is_minus_positive_label quote_format
                  first_argument "12" minus_ninety (Double.of_int 1) 0
                  eq_refl eq_refl)).
Defined.

(** X13: a negative time less than one minor tick away from zero is
    labelled as zero, without a minus sign: for [mMinor] at least 1 the
    text appended is 0:00:00, 0:00 or 0, and for every tick type the
    result is the one for time zero. *)
Theorem small_negative_labelled_as_zero :
  forall Printf_double pow s d mMinor mDigits tickType,
    DoubleOps.ltb d Double.zero = true ->
    DoubleOps.ltb Double.zero (DoubleOps.add d mMinor) = true ->
    TimeFormat.SetLabelString Printf_double pow s d mMinor mDigits tickType =
    TimeFormat.SetLabelString Printf_double pow s Double.zero mMinor mDigits
      tickType /\
    (Double.leb (TimeFormat.lit 1) mMinor = true ->
     TimeFormat.SetLabelString Printf_double pow s d mMinor mDigits
       TimeFormat.t_major =
     (s ++ if Double.leb (TimeFormat.lit 3600) mMinor then "0:00:00"
           else if Double.leb (TimeFormat.lit 60) mMinor then "0:00"
           else "0")%string).
Proof.
  intros Printf_double pow s d mMinor mDigits tickType Hn Hz.
  assert (R : replaced d mMinor = Double.zero)
    by (unfold replaced; now rewrite Hn, Hz).
  split.
  - unfold TimeFormat.SetLabelString. rewrite Hn, Hz. reflexivity.
  - intros H1. rewrite SetLabelString_major.
    unfold sign_text, magnitude. rewrite R.
    destruct (Double.leb (TimeFormat.lit 3600) mMinor);
      [|destruct (Double.leb (TimeFormat.lit 60) mMinor); [|rewrite H1]];
      reflexivity.
Qed.

Lemma small_negative_labelled_as_zero_witness :
  TimeFormat.SetLabelString quote_format first_argument "" minus_quarter
    (Double.of_int 60) 0 TimeFormat.t_major = "0:00"%string.
Proof.
  exact (proj2 (small_negative_labelled_as_zero quote_format first_argument
                  "" minus_quarter (Double.of_int 60) 0 TimeFormat.t_major
                  eq_refl eq_refl) eq_refl).
Defined.

(** X14: with the minor tick that [SetTickSizes] chooses for [units] above
    0.5, labels show whole seconds: the label does not depend on
    [mDigits], on [Printf] with a [double] or on [pow]. *)
Theorem coarse_ticks_label_whole_seconds :
  forall RealFormat units t,
    DoubleOps.ltb half units = true ->
    let mMinor :=
      TimeFormat.mMinor (TimeFormat.SetTickSizes RealFormat units t) in
    Double.leb (TimeFormat.lit 1) mMinor = true /\
    forall Printf1 pow1 digits1 Printf2 pow2 digits2 s d tickType,
      TimeFormat.SetLabelString Printf1 pow1 s d mMinor digits1 tickType =
      TimeFormat.SetLabelString Printf2 pow2 s d mMinor digits2 tickType.
Proof.
  intros RealFormat units t H mMinor.
  assert (L : Double.leb (TimeFormat.lit 1) mMinor = true).
  { subst mMinor. unfold TimeFormat.SetTickSizes. rewrite H.
    split_units units; vm_compute; reflexivity. }
  split; [exact L|].
  intros Printf1 pow1 digits1 Printf2 pow2 digits2 s d tickType.
  destruct tickType; [|reflexivity].
  rewrite !SetLabelString_major.
  destruct (Double.leb (TimeFormat.lit 3600) mMinor); [reflexivity|].
  destruct (Double.leb (TimeFormat.lit 60) mMinor); [reflexivity|].
  now rewrite L.
Qed.

Lemma coarse_ticks_label_whole_seconds_witness :
  Double.leb (TimeFormat.lit 1)
    (TimeFormat.mMinor
       (TimeFormat.SetTickSizes (fun _ t => t) (Double.of_int 7)
          {| TimeFormat.mMajor := Double.zero; TimeFormat.mMinor := Double.zero;
             TimeFormat.mMinorMinor := Double.zero; TimeFormat.mDigits := 0 |}))
  = true.
Proof.
  exact (proj1 (coarse_ticks_label_whole_seconds (fun _ t => t)
                  (Double.of_int 7)
                  {| TimeFormat.mMajor := Double.zero;
                     TimeFormat.mMinor := Double.zero;
                     TimeFormat.mMinorMinor := Double.zero;
                     TimeFormat.mDigits := 0 |} eq_refl)).
Defined.

